(** * Expand-and-compare-genes: a shallow embedding of
      [expand_and_compare_genes.py] and the properties of its synonym index,
      set expansion and comparator.

    Conventions of the embedding.
    - A Python [str] is a [string]; the text is taken to be ASCII (gene
      symbols are), so [lower] folds [A-Z] only and [isspace] is Python's
      whitespace test restricted to code points below 128.  The order used
      by [sorted] is the code point order, [String.le].
    - A Python [set] of strings is a [gset string]; iterating over it visits
      [elements s], an order the program cannot choose.
    - A Python [dict] is an association list with unique keys kept in
      insertion order ([dict_set] overwrites in place, as Python does), so
      that [gene_dict.items()] is the list itself.
    - Exceptions are values of [exn]; fallible functions return [result]. *)

From Stdlib Require Import Ascii String.
From stdpp Require Import gmap strings list sorting.

Local Open Scope string_scope.
Local Open Scope list_scope.

(** ** Python string primitives *)

Module Py.

Definition isspace (c : ascii) : bool :=
  let n := nat_of_ascii c in
  ((9 <=? n)%nat && (n <=? 13)%nat) || ((28 <=? n)%nat && (n <=? 32)%nat).

Fixpoint lstrip (s : string) : string :=
  match s with
  | EmptyString => EmptyString
  | String c s' => if isspace c then lstrip s' else s
  end.

Fixpoint rstrip (s : string) : string :=
  match s with
  | EmptyString => EmptyString
  | String c s' =>
      match rstrip s' with
      | EmptyString => if isspace c then EmptyString else String c EmptyString
      | r => String c r
      end
  end.

(** [s.strip()] *)
Definition strip (s : string) : string := rstrip (lstrip s).

Definition lower_ascii (c : ascii) : ascii :=
  let n := nat_of_ascii c in
  if ((65 <=? n)%nat && (n <=? 90)%nat) then ascii_of_nat (n + 32) else c.

(** [s.lower()] *)
Fixpoint lower (s : string) : string :=
  match s with
  | EmptyString => EmptyString
  | String c s' => String (lower_ascii c) (lower s')
  end.

(** [s.split(sep)] for a one-character separator: every occurrence of [sep]
    cuts, empty pieces are kept, and the empty string gives one empty
    piece. *)
Fixpoint split (sep : ascii) (s : string) : list string :=
  match s with
  | EmptyString => [EmptyString]
  | String c s' =>
      if Ascii.eqb c sep then EmptyString :: split sep s'
      else match split sep s' with
           | [] => [String c EmptyString]
           | p :: ps => String c p :: ps
           end
  end.

(** [sep.join(l)] *)
Fixpoint join (sep : string) (l : list string) : string :=
  match l with
  | [] => EmptyString
  | x :: l' =>
      match l' with
      | [] => x
      | _ :: _ => x +:+ sep +:+ join sep l'
      end
  end.

(** [sorted(l)] on strings. *)
Definition sorted (l : list string) : list string := merge_sort String.le l.

(** [str(b)] *)
Definition str_of_bool (b : bool) : string := if b then "True" else "False".

(** Truth value of an optional string: [None] and [''] are falsy. *)
Definition truthy (o : option string) : bool :=
  match o with
  | Some (String _ _) => true
  | _ => false
  end.

End Py.

(** ** Dictionaries in insertion order *)

Section Dict.
Context {V : Type}.

Definition dict := list (string * V).

(** [k in d] / [d[k]] *)
Fixpoint dict_get (d : dict) (k : string) : option V :=
  match d with
  | [] => None
  | (k', v) :: d' => if decide (k = k') then Some v else dict_get d' k
  end.

(** [d[k] = v]: an existing key keeps its position, a new key goes last. *)
Fixpoint dict_set (k : string) (v : V) (d : dict) : dict :=
  match d with
  | [] => [(k, v)]
  | (k', v') :: d' =>
      if decide (k = k') then (k, v) :: d' else (k', v') :: dict_set k v d'
  end.

Definition dict_keys (d : dict) : list string := d.*1.
End Dict.
Arguments dict : clear implicits.

(** ** [expand_gene_set_with_synonyms] *)

Definition expand_step (gene_dict : dict (gset string))
    (expanded_set : gset string) (gene : string) : gset string :=
  let expanded_set := expanded_set ∪ {[gene]} in
  match dict_get gene_dict gene with
  | Some synonyms => expanded_set ∪ synonyms
  | None => expanded_set
  end.

Definition expand_gene_set_with_synonyms
    (gene_set : gset string) (gene_dict : dict (gset string)) : gset string :=
  foldl (expand_step gene_dict) ∅ (elements gene_set).

(** ** [compare_files] *)

Record ResultRecord := {
  Gene : string;
  Synonyms : string;
  Present_in_A : string
}.

(** [any(syn in expanded_file_a for syn in synonyms)] *)
Definition any_in (expanded_file_a synonyms : gset string) : bool :=
  existsb (λ syn, bool_decide (syn ∈ expanded_file_a)) (elements synonyms).

(** The inner [for gene_name, synonyms in gene_dict.items()] loop with its
    [break]; the state is [(synonyms_b, present_in_a)]. *)
Fixpoint match_loop (gene_b : string) (expanded_file_a : gset string)
    (items : list (string * gset string)) (st : gset string * bool)
    : gset string * bool :=
  match items with
  | [] => st
  | (gene_name, synonyms) :: items' =>
      if bool_decide (gene_b = gene_name) || bool_decide (gene_b ∈ synonyms)
      then ({[gene_name]} ∪ synonyms,
            bool_decide (gene_name ∈ expanded_file_a)
            || any_in expanded_file_a synonyms)
      else match_loop gene_b expanded_file_a items' st
  end.

(** Body of the outer loop: the record appended for [gene_b]. *)
Definition compare_gene (gene_dict : dict (gset string))
    (expanded_file_a : gset string) (gene_b : string) : ResultRecord :=
  let '(synonyms_b, present_in_a) :=
    match_loop gene_b expanded_file_a gene_dict (∅, false) in
  let synonyms_b := synonyms_b ∖ {[gene_b]} in
  {| Gene := gene_b;
     Synonyms := Py.join "|" (Py.sorted (elements synonyms_b));
     Present_in_A := Py.str_of_bool present_in_a |}.

Definition compare_files (gene_dict : dict (gset string))
    (file_a_genes file_b_genes : gset string) : list ResultRecord :=
  let expanded_file_a := expand_gene_set_with_synonyms file_a_genes gene_dict in
  foldl (λ output gene_b,
           output ++ [compare_gene gene_dict expanded_file_a gene_b])
        [] (elements file_b_genes).

(** ** [load_gene_info] *)

Inductive exn := OSError | TypeError | ValueError | KeyError | AttributeError.

Inductive result (A : Type) :=
  | Ok (a : A)
  | Raise (e : exn).
Arguments Ok {A} a.
Arguments Raise {A} e.

Global Instance exn_eq_dec : EqDecision exn.
Proof. solve_decision. Defined.

(** What [open] gives for a path: [None] when the file cannot be opened;
    for the gene info file the rows as [csv.reader] yields them with a tab
    delimiter (a blank line is the empty row), for a gene list its lines. *)
Definition csv_file := option (list (list string)).
Definition text_file := option (list string).

(** The row dictionary built by [csv.DictReader.__next__]: the header zipped
    with the row (a repeated column name keeps its last field), and [None]
    for every column the row is too short to fill. *)
Definition dict_row (fieldnames row : list string)
    : gmap string (option string) :=
  let d := foldl (λ d kv, <[kv.1 := Some kv.2]> d) ∅ (zip fieldnames row) in
  foldl (λ d key, <[key := None]> d) d (drop (length row) fieldnames).

(** [DictReader] skips the rows that are empty lists. *)
Definition data_rows (rows : list (list string)) : list (list string) :=
  filter (λ row, row ≠ []) rows.

Definition required_columns : gset string := {["Symbol"; "Synonyms"]}.

(** [[syn.strip().lower() for syn in field.split('|')] if field else []] *)
Definition synonyms_of_field (field : option string) : list string :=
  match field with
  | Some (String _ _ as field) =>
      (λ syn, Py.lower (Py.strip syn)) <$> Py.split "|" field
  | _ => []
  end.

(** Lines 30 and 31: the key and the synonym list a row gives.  A column
    the row does not reach holds [None]: [None.strip()] raises
    [AttributeError], while a [None] synonym field is merely falsy. *)
Definition parse_row (fieldnames row : list string)
    : result (string * list string) :=
  let row := dict_row fieldnames row in
  match row !! "Symbol" with
  | None => Raise KeyError
  | Some None => Raise AttributeError
  | Some (Some symbol) =>
      let gene_name := Py.lower (Py.strip symbol) in
      match row !! "Synonyms" with
      | None => Raise KeyError
      | Some field => Ok (gene_name, synonyms_of_field field)
      end
  end.

(** Body of the [for row in reader] loop. *)
Definition load_row (fieldnames : list string)
    (gene_dict : dict (gset string)) (row : list string)
    : result (dict (gset string)) :=
  match parse_row fieldnames row with
  | Ok (gene_name, synonyms) =>
      Ok (dict_set gene_name (list_to_set synonyms) gene_dict)
  | Raise e => Raise e
  end.

Fixpoint load_rows (fieldnames : list string)
    (gene_dict : dict (gset string)) (rows : list (list string))
    : result (dict (gset string)) :=
  match rows with
  | [] => Ok gene_dict
  | row :: rows' =>
      match load_row fieldnames gene_dict row with
      | Ok gene_dict' => load_rows fieldnames gene_dict' rows'
      | Raise e => Raise e
      end
  end.

(** The [except] clause prints and re-raises, so the outcome of the function
    is the outcome of the [try] body.  An empty file has no header row:
    [reader.fieldnames] is [None] and [set(None)] raises [TypeError]. *)
Definition load_gene_info (gene_info_file : csv_file)
    : result (dict (gset string)) :=
  match gene_info_file with
  | None => Raise OSError
  | Some [] => Raise TypeError
  | Some (fieldnames :: rows) =>
      if bool_decide (required_columns ⊆ list_to_set fieldnames)
      then load_rows fieldnames [] (data_rows rows)
      else Raise ValueError
  end.

(** ** [read_gene_file] and [main] *)

Definition read_gene_file (file : text_file) : result (gset string) :=
  match file with
  | None => Raise OSError
  | Some lines =>
      Ok (list_to_set
            ((λ line, Py.lower (Py.strip line))
               <$> filter (λ line, Py.strip line ≠ "") lines))
  end.

(** What a run prints, stage by stage, and the exception it reports. *)
Inductive event :=
  | LoadingGeneInfo
  | ErrorReadingGeneInfo (e : exn)
  | ReadingFiles
  | ErrorReadingFile (e : exn)
  | Comparing
  | Writing
  | ErrorWriting (e : exn)
  | Complete
  | Error (e : exn).

(** [write_output]: the records reach the output file when it can be
    opened for writing. *)
Definition write_output (output : list ResultRecord) (writable : bool)
    : result (list ResultRecord) :=
  if writable then Ok output else Raise OSError.

(** [main] after argument parsing: the printed trace and the records
    written, if any.  Every exception is caught by the final [except]. *)
Definition main (gene_info : csv_file) (file_a file_b : text_file)
    (writable : bool) : list event * option (list ResultRecord) :=
  match load_gene_info gene_info with
  | Raise e => ([LoadingGeneInfo; ErrorReadingGeneInfo e; Error e], None)
  | Ok gene_dict =>
  match read_gene_file file_a with
  | Raise e =>
      ([LoadingGeneInfo; ReadingFiles; ErrorReadingFile e; Error e], None)
  | Ok file_a_genes =>
  match read_gene_file file_b with
  | Raise e =>
      ([LoadingGeneInfo; ReadingFiles; ErrorReadingFile e; Error e], None)
  | Ok file_b_genes =>
  let output := compare_files gene_dict file_a_genes file_b_genes in
  match write_output output writable with
  | Raise e =>
      ([LoadingGeneInfo; ReadingFiles; Comparing; Writing; ErrorWriting e;
        Error e], None)
  | Ok written =>
      ([LoadingGeneInfo; ReadingFiles; Comparing; Writing; Complete],
       Some written)
  end end end end.

(** ** The store: sets and dictionaries as mutable objects

    [expand_gene_set_with_synonyms] once more, now over object identities,
    to account for what it mutates: [gene_set] and [gene_dict] are
    references, the dictionary's values are references to set objects, and
    [expanded_set] is a newly allocated set updated in place.  [None] is a
    run that touches a reference of the wrong kind. *)

Module Store.

Definition loc := positive.

Inductive obj :=
  | OSet (s : gset string)
  | ODict (d : dict loc).

(** [set()] *)
Definition new_set (σ : gmap loc obj) : loc * gmap loc obj :=
  let l := fresh (dom σ) in (l, <[l := OSet ∅]> σ).

(** [l.add(x)] *)
Definition set_add (l : loc) (x : string) (σ : gmap loc obj)
    : option (gmap loc obj) :=
  match σ !! l with
  | Some (OSet s) => Some (<[l := OSet (s ∪ {[x]})]> σ)
  | _ => None
  end.

(** [l.update(src)] *)
Definition set_update (l src : loc) (σ : gmap loc obj)
    : option (gmap loc obj) :=
  match σ !! l, σ !! src with
  | Some (OSet s), Some (OSet t) => Some (<[l := OSet (s ∪ t)]> σ)
  | _, _ => None
  end.

Definition expand_step (gene_dict expanded_set : loc)
    (st : option (gmap loc obj)) (gene : string) : option (gmap loc obj) :=
  σ ← st;
  σ ← set_add expanded_set gene σ;
  match σ !! gene_dict with
  | Some (ODict d) =>
      match dict_get d gene with
      | Some synonyms => set_update expanded_set synonyms σ
      | None => Some σ
      end
  | _ => None
  end.

Definition expand_gene_set_with_synonyms (gene_set gene_dict : loc)
    (σ : gmap loc obj) : option (loc * gmap loc obj) :=
  match σ !! gene_set with
  | Some (OSet genes) =>
      let '(expanded_set, σ) := new_set σ in
      σ ← foldl (expand_step gene_dict expanded_set) (Some σ) (elements genes);
      Some (expanded_set, σ)
  | _ => None
  end.

(** The value a set reference holds, and the index a dictionary denotes. *)
Definition set_at (σ : gmap loc obj) (l : loc) : gset string :=
  match σ !! l with
  | Some (OSet s) => s
  | _ => ∅
  end.

Definition index_of (σ : gmap loc obj) (d : dict loc) : dict (gset string) :=
  (λ kv, (kv.1, set_at σ kv.2)) <$> d.

(** Every value of the dictionary refers to a set object. *)
Definition dict_wf (σ : gmap loc obj) (d : dict loc) : Prop :=
  Forall (λ kv, ∃ s, σ !! kv.2 = Some (OSet s)) d.

End Store.

(** [compare_files] over the store.  The sets it builds ([expanded_file_a],
    the empty [synonyms_b], the display [{gene_name, *synonyms}]) are new
    objects; [synonyms_b.discard(gene_b)] mutates the object [synonyms_b]
    refers to.  The records hold strings only. *)

Module StoreCmp.

(** A set display or [set()]: a new object with the given members. *)
Definition alloc_set (s : gset string) (σ : gmap Store.loc Store.obj)
    : Store.loc * gmap Store.loc Store.obj :=
  let l := fresh (dom σ) in (l, <[l := Store.OSet s]> σ).

(** [l.discard(x)] *)
Definition set_discard (l : Store.loc) (x : string)
    (σ : gmap Store.loc Store.obj) : option (gmap Store.loc Store.obj) :=
  match σ !! l with
  | Some (Store.OSet s) => Some (<[l := Store.OSet (s ∖ {[x]})]> σ)
  | _ => None
  end.

(** The inner loop; the state is the reference [synonyms_b] and the flag
    [present_in_a]. *)
Fixpoint match_loop (gene_b : string) (expanded_file_a : Store.loc)
    (items : list (string * Store.loc)) (st : Store.loc * bool)
    (σ : gmap Store.loc Store.obj)
    : option (Store.loc * bool * gmap Store.loc Store.obj) :=
  match items with
  | [] => Some (st, σ)
  | (gene_name, synonyms) :: items' =>
      match σ !! synonyms with
      | Some (Store.OSet syns) =>
          if bool_decide (gene_b = gene_name) || bool_decide (gene_b ∈ syns)
          then
            let '(synonyms_b, σ') := alloc_set ({[gene_name]} ∪ syns) σ in
            match σ' !! expanded_file_a with
            | Some (Store.OSet E) =>
                Some (synonyms_b,
                      bool_decide (gene_name ∈ E) || any_in E syns, σ')
            | _ => None
            end
          else match_loop gene_b expanded_file_a items' st σ
      | _ => None
      end
  end.

Definition compare_gene (gene_dict expanded_file_a : Store.loc)
    (gene_b : string) (σ : gmap Store.loc Store.obj)
    : option (ResultRecord * gmap Store.loc Store.obj) :=
  let '(synonyms_b, σ) := alloc_set ∅ σ in
  match σ !! gene_dict with
  | Some (Store.ODict d) =>
      '(synonyms_b, present_in_a, σ) ←
        match_loop gene_b expanded_file_a d (synonyms_b, false) σ;
      σ ← set_discard synonyms_b gene_b σ;
      match σ !! synonyms_b with
      | Some (Store.OSet s) =>
          Some ({| Gene := gene_b;
                   Synonyms := Py.join "|" (Py.sorted (elements s));
                   Present_in_A := Py.str_of_bool present_in_a |}, σ)
      | _ => None
      end
  | _ => None
  end.

Definition compare_step (gene_dict expanded_file_a : Store.loc)
    (acc : option (list ResultRecord * gmap Store.loc Store.obj))
    (gene_b : string)
    : option (list ResultRecord * gmap Store.loc Store.obj) :=
  '(output, σ) ← acc;
  '(r, σ) ← compare_gene gene_dict expanded_file_a gene_b σ;
  Some (output ++ [r], σ).

Definition compare_files (gene_dict file_a_genes file_b_genes : Store.loc)
    (σ : gmap Store.loc Store.obj)
    : option (list ResultRecord * gmap Store.loc Store.obj) :=
  '(expanded_file_a, σ) ←
    Store.expand_gene_set_with_synonyms file_a_genes gene_dict σ;
  match σ !! file_b_genes with
  | Some (Store.OSet genes) =>
      foldl (compare_step gene_dict expanded_file_a) (Some ([], σ))
            (elements genes)
  | _ => None
  end.

End StoreCmp.

(** ** Vocabulary of the statements *)

(** An index is closed under one hop when a synonym that is itself a
    canonical key brings nothing beyond its parent key and the parent's
    synonyms. *)
Definition one_hop_closed (d : dict (gset string)) : bool :=
  forallb (λ kv,
    forallb (λ s,
      match dict_get d s with
      | Some syns' => bool_decide (syns' ⊆ {[kv.1]} ∪ kv.2)
      | None => true
      end) (elements kv.2)) d.

(** [gene_b] matches the entry: it is its key or one of its synonyms. *)
Definition matches (gene_b : string) (kv : string * gset string) : Prop :=
  gene_b = kv.1 ∨ gene_b ∈ kv.2.

Global Instance matches_dec gene_b kv : Decision (matches gene_b kv).
Proof. unfold matches. apply _. Defined.

(** [field] is the pipe-joined, sorted, duplicate-free listing of the
    members of [X]. *)
Definition synonyms_field_of (X : gset string) (field : string) : Prop :=
  ∃ l, field = Py.join "|" l ∧ Sorted String.le l ∧ NoDup l ∧
       ∀ x, x ∈ l ↔ x ∈ X.

(** [syns] holds the trimmed, lowercased pieces of a non-empty synonym
    field, every piece counted, and nothing for an empty or missing field;
    so it holds the empty string exactly when some piece trims to nothing. *)
Definition built_from_field (field : option string) (syns : gset string)
    : Prop :=
  (∀ x, x ∈ syns ↔
        ∃ f piece, field = Some f ∧ f ≠ "" ∧ piece ∈ Py.split "|" f
                   ∧ x = Py.lower (Py.strip piece))
  ∧ ("" ∈ syns ↔
     ∃ f piece, field = Some f ∧ f ≠ "" ∧ piece ∈ Py.split "|" f
                ∧ Py.strip piece = "").

(** [d] is the index of the table with header [fn] and rows [rows]: its
    keys are distinct and are the keys of the data rows, the last row with
    a key gives its value, and a row with an empty synonym field still has
    its key in the index, with the empty set when it is the last such row. *)
Definition index_of_table (fn : list string) (rows : list (list string))
    (d : dict (gset string)) : Prop :=
  NoDup (dict_keys d)
  ∧ (∀ k, is_Some (dict_get d k) ↔
          ∃ row syns, row ∈ data_rows rows ∧ parse_row fn row = Ok (k, syns))
  ∧ (∀ pre row post k syns,
       data_rows rows = pre ++ row :: post →
       parse_row fn row = Ok (k, syns) →
       (∀ r s, r ∈ post → parse_row fn r ≠ Ok (k, s)) →
       dict_get d k = Some (list_to_set syns))
  ∧ (∀ pre row post symbol field,
       data_rows rows = pre ++ row :: post →
       dict_row fn row !! "Symbol" = Some (Some symbol) →
       dict_row fn row !! "Synonyms" = Some field →
       Py.truthy field = false →
       is_Some (dict_get d (Py.lower (Py.strip symbol)))
       ∧ ((∀ r s, r ∈ post →
             parse_row fn r ≠ Ok (Py.lower (Py.strip symbol), s)) →
          dict_get d (Py.lower (Py.strip symbol)) = Some ∅)).

(** A string with no whitespace in front. *)
Definition no_lead (s : string) : Prop :=
  match s with
  | EmptyString => True
  | String c _ => Py.isspace c = false
  end.

(** The distinct members of a list in the order of their first
    occurrence. *)
Fixpoint first_occurrences (l : list string) : list string :=
  match l with
  | [] => []
  | x :: l' => x :: filter (λ y, y ≠ x) (first_occurrences l')
  end.

(** * Properties *)

(** ** Dictionaries *)

Section DictFacts.
Context {V : Type}.
Implicit Types (d : dict V) (k : string) (v : V).

Lemma dict_get_set_eq d k v : dict_get (dict_set k v d) k = Some v.
Proof.
  induction d as [|[k' v'] d IH]; simpl; repeat case_decide; simpl;
    repeat case_decide; congruence.
Qed.

Lemma dict_get_set_ne d k k' v :
  k ≠ k' → dict_get (dict_set k v d) k' = dict_get d k'.
Proof.
  intros Hne. induction d as [|[k0 v0] d IH]; simpl; repeat case_decide;
    simpl; repeat case_decide; congruence.
Qed.

Lemma dict_keys_set d k v x :
  x ∈ dict_keys (dict_set k v d) ↔ x = k ∨ x ∈ dict_keys d.
Proof.
  unfold dict_keys. induction d as [|[k0 v0] d IH]; simpl.
  - rewrite list_elem_of_singleton, elem_of_nil. tauto.
  - case_decide; subst; simpl; rewrite !elem_of_cons; [|rewrite IH]; tauto.
Qed.

Lemma dict_keys_set_NoDup d k v :
  NoDup (dict_keys d) → NoDup (dict_keys (dict_set k v d)).
Proof.
  unfold dict_keys. induction d as [|[k0 v0] d IH]; simpl; intros Hnd.
  - apply NoDup_singleton.
  - apply NoDup_cons in Hnd as [Hk0 Hnd]. case_decide; subst; simpl.
    + by apply NoDup_cons.
    + apply NoDup_cons. split; [|by apply IH].
      intros Hin. apply (dict_keys_set d k v k0) in Hin as [?|?]; done.
Qed.

Lemma dict_get_is_Some d k : is_Some (dict_get d k) ↔ k ∈ dict_keys d.
Proof.
  unfold dict_keys. induction d as [|[k0 v0] d IH]; simpl.
  - split; [by intros [? ?]|by intros ?%elem_of_nil].
  - rewrite elem_of_cons. case_decide; subst.
    + split; eauto.
    + rewrite IH. tauto.
Qed.

Lemma dict_get_Some_elem d k v : dict_get d k = Some v → (k, v) ∈ d.
Proof.
  induction d as [|[k0 v0] d IH]; simpl; [done|].
  case_decide; subst; intros Hg.
  - injection Hg as ->. apply elem_of_cons. by left.
  - apply elem_of_cons. right. by apply IH.
Qed.

End DictFacts.

(** ** Expansion *)

Section Expand.
Implicit Types (d : dict (gset string)) (S acc : gset string)
  (l : list string) (x g : string).

Lemma elem_of_foldl_expand d l acc x :
  x ∈ foldl (expand_step d) acc l ↔
  x ∈ acc ∨ x ∈ l ∨ ∃ g syns, g ∈ l ∧ dict_get d g = Some syns ∧ x ∈ syns.
Proof.
  revert acc. induction l as [|a l IH]; intros acc; simpl.
  - split; [by left|]. intros [?|[?%elem_of_nil|(g & ? & ?%elem_of_nil & _)]]; done.
  - rewrite IH. unfold expand_step.
    destruct (dict_get d a) as [syns|] eqn:Ha.
    + rewrite !elem_of_union, elem_of_singleton. split.
      * intros [[[?| ->]|?]|[?|(g & sg & ? & ? & ?)]].
        -- by left.
        -- right; left. apply elem_of_cons. by left.
        -- right; right. exists a, syns.
           split_and!; [apply elem_of_cons; by left|done..].
        -- right; left. apply elem_of_cons. by right.
        -- right; right. exists g, sg.
           split_and!; [apply elem_of_cons; by right|done..].
      * intros [?|[[->|?]%elem_of_cons|(g & sg & [->|?]%elem_of_cons & Hg & ?)]].
        -- left; left; by left.
        -- left; left; by right.
        -- right; by left.
        -- rewrite Ha in Hg. injection Hg as ->. left; by right.
        -- right; right. by exists g, sg.
    + rewrite elem_of_union, elem_of_singleton. split.
      * intros [[?| ->]|[?|(g & sg & ? & ? & ?)]].
        -- by left.
        -- right; left. apply elem_of_cons. by left.
        -- right; left. apply elem_of_cons. by right.
        -- right; right. exists g, sg.
           split_and!; [apply elem_of_cons; by right|done..].
      * intros [?|[[->|?]%elem_of_cons|(g & sg & [->|?]%elem_of_cons & Hg & ?)]].
        -- left; by left.
        -- left; by right.
        -- right; by left.
        -- congruence.
        -- right; right. by exists g, sg.
Qed.

Lemma elem_of_expand S d x :
  x ∈ expand_gene_set_with_synonyms S d ↔
  x ∈ S ∨ ∃ g syns, g ∈ S ∧ dict_get d g = Some syns ∧ x ∈ syns.
Proof.
  unfold expand_gene_set_with_synonyms. rewrite elem_of_foldl_expand.
  setoid_rewrite elem_of_elements. set_solver.
Qed.

Lemma expand_subseteq S d : S ⊆ expand_gene_set_with_synonyms S d.
Proof. intros x Hx. apply elem_of_expand. by left. Qed.

Lemma expand_size S d :
  (size S ≤ size (expand_gene_set_with_synonyms S d))%nat.
Proof. apply subseteq_size, expand_subseteq. Qed.

(** The fixed points of the second pass. *)
Lemma expand_twice_iff S d :
  expand_gene_set_with_synonyms (expand_gene_set_with_synonyms S d) d
    = expand_gene_set_with_synonyms S d ↔
  ∀ g syns, g ∈ expand_gene_set_with_synonyms S d →
    dict_get d g = Some syns → syns ⊆ expand_gene_set_with_synonyms S d.
Proof.
  split.
  - intros Heq g syns Hg Hd x Hx. rewrite <-Heq.
    apply elem_of_expand. right. by exists g, syns.
  - intros Hcl. apply set_eq. intros x. split.
    + intros [?|(g & syns & Hg & Hd & Hx)]%elem_of_expand; [done|].
      by apply (Hcl g syns).
    + apply expand_subseteq.
Qed.
End Expand.

(** C4: the expansion of S holds every gene of S and, for each gene of S
    that is a canonical key of the index, the synonyms under that key, and
    nothing else; a gene that is not a canonical key (even when it is listed
    as a synonym under some key) adds itself only. *)
Theorem expand_exact (S : gset string) (d : dict (gset string)) :
  (∀ x, x ∈ expand_gene_set_with_synonyms S d ↔
        x ∈ S ∨ ∃ g syns, g ∈ S ∧ dict_get d g = Some syns ∧ x ∈ syns)
  ∧ (∀ g, dict_get d g = None →
        expand_gene_set_with_synonyms ({[g]} ∪ S) d
        = {[g]} ∪ expand_gene_set_with_synonyms S d).
Proof.
  split; [apply elem_of_expand|].
  intros g Hg. apply set_eq. intros x.
  rewrite elem_of_union, !elem_of_expand, elem_of_union, elem_of_singleton.
  split.
  - intros [[->|?]|(g' & syns & [->%elem_of_singleton|?]%elem_of_union & Hd & ?)].
    + by left.
    + right; by left.
    + congruence.
    + right; right. by exists g', syns.
  - intros [->|[?|(g' & syns & ? & ? & ?)]].
    + left; by left.
    + left; by right.
    + right. exists g', syns. split_and!; [|done..].
      apply elem_of_union. by right.
Qed.

Lemma expand_exact_witness :
  let d : dict (gset string) := [("tp53", {["p53"; "trp53"]})] in
  expand_gene_set_with_synonyms ({["p53"]} ∪ {["tp53"]}) d
  = {["p53"]} ∪ expand_gene_set_with_synonyms {["tp53"]} d.
Proof.
  intros d. apply (proj2 (expand_exact {["tp53"]} d) "p53").
  reflexivity.
Defined.

(** The asymmetry on the spec's own example: a synonym alone stays alone. *)
Example expand_synonym_only :
  expand_gene_set_with_synonyms {["p53"]} [("tp53", {["p53"; "trp53"]})]
  = {["p53"]}.
Proof. by vm_compute. Qed.

(** C2, as stated, fails: with [a -> {b}] and [b -> {c}] the first pass over
    [{a}] adds [b], and the second pass then follows [b] to [c]. *)
Lemma expand_not_idempotent :
  let d : dict (gset string) := [("a", {["b"]}); ("b", {["c"]})] in
  expand_gene_set_with_synonyms (expand_gene_set_with_synonyms {["a"]} d) d
  ≠ expand_gene_set_with_synonyms {["a"]} d.
Proof.
  intros d Heq.
  apply (f_equal (λ s : gset string, bool_decide ("c" ∈ s))) in Heq.
  vm_compute in Heq. discriminate.
Qed.

Lemma one_hop_closed_spec (d : dict (gset string)) k syns s syns' :
  one_hop_closed d = true → dict_get d k = Some syns → s ∈ syns →
  dict_get d s = Some syns' → syns' ⊆ {[k]} ∪ syns.
Proof.
  unfold one_hop_closed. rewrite forallb_forall.
  intros Hcl Hk Hs Hs'.
  specialize (Hcl (k, syns)). rewrite forallb_forall in Hcl.
  assert (Hin : In s (elements syns)).
  { apply list_elem_of_In, elem_of_elements, Hs. }
  apply dict_get_Some_elem, list_elem_of_In in Hk.
  specialize (Hcl Hk s Hin). simpl in Hcl. rewrite Hs' in Hcl.
  by apply bool_decide_eq_true in Hcl.
Qed.

(** C2 (amended): a second expansion never loses anything; it adds nothing
    exactly when every canonical key found in the first expansion already
    has all its synonyms there, and this is so for every S when the index
    is closed under one hop, that is when every synonym that is itself a
    canonical key has its own synonyms among its parent key and the
    parent's synonyms. *)
Theorem expand_idempotent_closed (S : gset string) (d : dict (gset string)) :
  expand_gene_set_with_synonyms S d
    ⊆ expand_gene_set_with_synonyms (expand_gene_set_with_synonyms S d) d
  ∧ (expand_gene_set_with_synonyms (expand_gene_set_with_synonyms S d) d
       = expand_gene_set_with_synonyms S d ↔
     ∀ g syns, g ∈ expand_gene_set_with_synonyms S d →
       dict_get d g = Some syns → syns ⊆ expand_gene_set_with_synonyms S d)
  ∧ (one_hop_closed d = true →
     expand_gene_set_with_synonyms (expand_gene_set_with_synonyms S d) d
     = expand_gene_set_with_synonyms S d).
Proof.
  split_and!; [apply expand_subseteq|apply expand_twice_iff|].
  intros Hcl. apply expand_twice_iff. intros g syns Hg Hd x Hx.
  apply elem_of_expand in Hg as [Hg|(k & ks & Hk & Hdk & Hgk)].
  - apply elem_of_expand. right. by exists g, syns.
  - pose proof (one_hop_closed_spec d k ks g syns Hcl Hdk Hgk Hd x Hx) as Hin.
    apply elem_of_union in Hin as [->%elem_of_singleton|Hin].
    + by apply expand_subseteq.
    + apply elem_of_expand. right. by exists k, ks.
Qed.

Lemma expand_idempotent_closed_witness :
  let d : dict (gset string) :=
    [("tp53", {["p53"; "trp53"]}); ("p53", {["tp53"; "trp53"]})] in
  expand_gene_set_with_synonyms (expand_gene_set_with_synonyms {["tp53"]} d) d
  = expand_gene_set_with_synonyms {["tp53"]} d.
Proof.
  intros d. apply (proj2 (proj2 (expand_idempotent_closed {["tp53"]} d))).
  vm_compute. reflexivity.
Defined.

(** ** The comparator *)

Section Compare.
Implicit Types (d : dict (gset string)) (A B E : gset string)
  (gene_b canon : string) (syns : gset string) (r : ResultRecord).

Lemma foldl_snoc_fmap {X Y} (f : X → Y) (l : list X) (acc : list Y) :
  foldl (λ output x, output ++ [f x]) acc l = acc ++ (f <$> l).
Proof.
  revert acc. induction l as [|x l IH]; intros acc; simpl.
  - by rewrite app_nil_r.
  - by rewrite IH, <-app_assoc.
Qed.

Lemma compare_files_fmap d A B :
  compare_files d A B
  = compare_gene d (expand_gene_set_with_synonyms A d) <$> elements B.
Proof. unfold compare_files. by rewrite foldl_snoc_fmap. Qed.

Lemma compare_gene_Gene d E gene_b : Gene (compare_gene d E gene_b) = gene_b.
Proof. unfold compare_gene. by destruct (match_loop _ _ _ _). Qed.

Lemma compare_files_Gene d A B : Gene <$> compare_files d A B = elements B.
Proof.
  rewrite compare_files_fmap.
  induction (elements B) as [|g l IH]; [done|].
  rewrite !fmap_cons, compare_gene_Gene. by f_equal.
Qed.

Lemma elem_of_compare_files d A B r :
  r ∈ compare_files d A B ↔
  Gene r ∈ B ∧ r = compare_gene d (expand_gene_set_with_synonyms A d) (Gene r).
Proof.
  rewrite compare_files_fmap, list_elem_of_fmap. split.
  - intros (g & -> & Hg%elem_of_elements).
    by rewrite compare_gene_Gene.
  - intros [Hg Hr]. exists (Gene r). split; [done|].
    by apply elem_of_elements.
Qed.

Lemma any_in_spec E syns :
  any_in E syns = true ↔ ∃ s, s ∈ syns ∧ s ∈ E.
Proof.
  unfold any_in. rewrite existsb_exists. split.
  - intros (s & Hs%list_elem_of_In%elem_of_elements & HE%bool_decide_eq_true).
    by exists s.
  - intros (s & Hs & HE). exists s. split.
    + by apply list_elem_of_In, elem_of_elements.
    + by apply bool_decide_eq_true.
Qed.

Lemma match_test gene_b kv :
  bool_decide (gene_b = kv.1) || bool_decide (gene_b ∈ kv.2) = true
  ↔ matches gene_b kv.
Proof.
  unfold matches.
  rewrite orb_true_iff, !bool_decide_eq_true. tauto.
Qed.

Lemma match_loop_unmatched gene_b E d st :
  Forall (λ kv, ¬ matches gene_b kv) d → match_loop gene_b E d st = st.
Proof.
  induction 1 as [|[k v] d Hk _ IH]; simpl; [done|].
  destruct (bool_decide (gene_b = k) || bool_decide (gene_b ∈ v)) eqn:Ht.
  - by apply (match_test gene_b (k, v)) in Ht.
  - done.
Qed.

Lemma match_loop_first gene_b E pre canon syns post st :
  Forall (λ kv, ¬ matches gene_b kv) pre →
  matches gene_b (canon, syns) →
  match_loop gene_b E (pre ++ (canon, syns) :: post) st
  = ({[canon]} ∪ syns, bool_decide (canon ∈ E) || any_in E syns).
Proof.
  intros Hpre Hm. induction Hpre as [|[k v] pre Hk _ IH]; simpl.
  - apply (match_test gene_b (canon, syns)) in Hm. simpl in Hm.
    by rewrite Hm.
  - destruct (bool_decide (gene_b = k) || bool_decide (gene_b ∈ v)) eqn:Ht.
    + by apply (match_test gene_b (k, v)) in Ht.
    + done.
Qed.

(** The first entry of the index that [gene_b] matches. *)
Lemma first_match_split gene_b d :
  Exists (matches gene_b) d →
  ∃ pre kv post, d = pre ++ kv :: post ∧
    Forall (λ kv, ¬ matches gene_b kv) pre ∧ matches gene_b kv.
Proof.
  induction d as [|kv d IH]; intros Hex; [by inversion Hex|].
  destruct (decide (matches gene_b kv)) as [Hm|Hm].
  - by exists [], kv, d.
  - inversion Hex as [|? ? Hex']; subst; [done|].
    destruct (IH Hex') as (pre & kv' & post & -> & Hpre & Hkv).
    exists (kv :: pre), kv', post. split_and!; [done| |done].
    by constructor.
Qed.

Lemma sorted_Sorted (l : list string) : Sorted String.le (Py.sorted l).
Proof. apply (Sorted_merge_sort String.le). Qed.

Lemma sorted_Permutation (l : list string) : Py.sorted l ≡ₚ l.
Proof. apply (merge_sort_Permutation String.le). Qed.

Lemma sorted_elements_empty : Py.sorted (elements (∅ : gset string)) = [].
Proof. by rewrite elements_empty. Qed.

(** What the record of an unmatched gene holds. *)
Lemma compare_gene_unmatched d E gene_b :
  Forall (λ kv, ¬ matches gene_b kv) d →
  compare_gene d E gene_b
  = {| Gene := gene_b; Synonyms := ""; Present_in_A := "False" |}.
Proof.
  intros Hd. unfold compare_gene. rewrite match_loop_unmatched by done.
  replace ((∅ : gset string) ∖ {[gene_b]}) with (∅ : gset string)
    by set_solver.
  by rewrite sorted_elements_empty.
Qed.

(** What the record of a matched gene is computed from. *)
Lemma compare_gene_matched E gene_b pre canon syns post :
  Forall (λ kv, ¬ matches gene_b kv) pre →
  matches gene_b (canon, syns) →
  compare_gene (pre ++ (canon, syns) :: post) E gene_b
  = {| Gene := gene_b;
       Synonyms :=
         Py.join "|" (Py.sorted (elements (({[canon]} ∪ syns) ∖ {[gene_b]})));
       Present_in_A :=
         Py.str_of_bool (bool_decide (canon ∈ E) || any_in E syns) |}.
Proof.
  intros Hpre Hm. unfold compare_gene.
  by rewrite (match_loop_first gene_b E pre canon syns post) by done.
Qed.
End Compare.

(** C5: the comparator emits one record per element of set B: the Gene
    column of the output is a rearrangement of the elements of B, no gene
    occurs in two records, and there are as many records as elements. *)
Theorem compare_files_one_record_each
    (d : dict (gset string)) (A B : gset string) :
  Gene <$> compare_files d A B ≡ₚ elements B
  ∧ NoDup (Gene <$> compare_files d A B)
  ∧ length (compare_files d A B) = size B.
Proof.
  rewrite compare_files_Gene. split_and!.
  - done.
  - apply NoDup_elements.
  - rewrite <-(length_fmap Gene), compare_files_Gene. done.
Qed.

(** C1 at a gene of file B that the index does not know but file A lists:
    the record has no synonyms, and Present_in_A is "False" although the
    gene is a member of the expanded set A. *)
Theorem compare_files_unmatched_in_A :
  let d : dict (gset string) := [("tp53", {["p53"; "trp53"]})] in
  Forall (λ kv, ¬ matches "abc" kv) d
  ∧ "abc" ∈ expand_gene_set_with_synonyms {["abc"]} d
  ∧ compare_files d {["abc"]} {["abc"]}
    = [{| Gene := "abc"; Synonyms := ""; Present_in_A := "False" |}].
Proof.
  intros d. split_and!.
  - apply (bool_decide_unpack _). by vm_compute.
  - apply (bool_decide_unpack _). by vm_compute.
  - by vm_compute.
Qed.

(** The same for every unmatched gene: Present_in_A is "False" whatever
    file A holds. *)
Lemma compare_files_unmatched
    (d : dict (gset string)) (A B : gset string) (r : ResultRecord) :
  r ∈ compare_files d A B →
  Forall (λ kv, ¬ matches (Gene r) kv) d →
  Synonyms r = "" ∧ Present_in_A r = "False".
Proof.
  intros [_ ->]%elem_of_compare_files Hd.
  rewrite compare_gene_Gene in Hd.
  by rewrite (compare_gene_unmatched _ _ _ Hd).
Qed.

(** C6: for a record whose gene matches first the index entry with key
    canon and synonym set syns, the Synonyms field is the class
    {canon} ∪ syns without the gene itself, sorted and joined with pipes
    (the empty string when nothing is left), and Present_in_A is the string
    "True" or "False", "True" exactly when canon or one of syns is a member
    of the expanded set A. *)
Theorem compare_files_matched_record
    (A B : gset string) (r : ResultRecord)
    (pre post : dict (gset string)) (canon : string) (syns : gset string) :
  r ∈ compare_files (pre ++ (canon, syns) :: post) A B →
  Forall (λ kv, ¬ matches (Gene r) kv) pre →
  matches (Gene r) (canon, syns) →
  synonyms_field_of (({[canon]} ∪ syns) ∖ {[Gene r]}) (Synonyms r)
  ∧ ((({[canon]} ∪ syns) ∖ {[Gene r]} : gset string) = ∅ → Synonyms r = "")
  ∧ (Present_in_A r = "True" ∨ Present_in_A r = "False")
  ∧ (Present_in_A r = "True" ↔
     canon ∈ expand_gene_set_with_synonyms A (pre ++ (canon, syns) :: post)
     ∨ ∃ s, s ∈ syns ∧
         s ∈ expand_gene_set_with_synonyms A (pre ++ (canon, syns) :: post)).
Proof.
  intros [_ Hr]%elem_of_compare_files Hpre Hm.
  remember (Gene r) as gene_b eqn:Hg. clear Hg.
  rewrite (compare_gene_matched _ gene_b pre canon syns post Hpre Hm) in Hr.
  subst r. simpl.
  set (E := expand_gene_set_with_synonyms A _).
  set (X := ({[canon]} ∪ syns) ∖ {[gene_b]}).
  split_and!.
  - exists (Py.sorted (elements X)). split_and!.
    + done.
    + apply sorted_Sorted.
    + rewrite sorted_Permutation. apply NoDup_elements.
    + intros x. rewrite sorted_Permutation. apply elem_of_elements.
  - intros ->. by rewrite sorted_elements_empty.
  - destruct (bool_decide (canon ∈ E) || any_in E syns); [by left|by right].
  - destruct (bool_decide (canon ∈ E)) eqn:Hc; simpl.
    + split; [|done]. intros _. left. by apply bool_decide_eq_true in Hc.
    + apply bool_decide_eq_false in Hc.
      destruct (any_in E syns) eqn:Ha; simpl.
      * split; [|done]. intros _. right. by apply any_in_spec.
      * split; [done|]. intros [?|Hs]; [done|].
        apply any_in_spec in Hs. congruence.
Qed.

Lemma compare_files_matched_record_witness :
  let r := {| Gene := "bar"; Synonyms := "baz|foo"; Present_in_A := "True" |} in
  let d : dict (gset string) := [("foo", {["bar"; "baz"]})] in
  synonyms_field_of (({["foo"]} ∪ {["bar"; "baz"]}) ∖ {["bar"]}) "baz|foo"
  ∧ ((({["foo"]} ∪ {["bar"; "baz"]}) ∖ {["bar"]} : gset string) = ∅ →
     "baz|foo" = "")
  ∧ ("True" = "True" ∨ "True" = "False")
  ∧ ("True" = "True" ↔
     "foo" ∈ expand_gene_set_with_synonyms {["foo"]} d
     ∨ ∃ s, s ∈ ({["bar"; "baz"]} : gset string) ∧
         s ∈ expand_gene_set_with_synonyms {["foo"]} d).
Proof.
  intros r d.
  apply (compare_files_matched_record {["foo"]} {["bar"; "zz"]} r [] []
           "foo" {["bar"; "baz"]}).
  - vm_compute. apply list_elem_of_further, list_elem_of_here.
  - constructor.
  - apply (bool_decide_unpack _). vm_compute. exact I.
Defined.

(** C10: for a gene of file B that matches some index entry, membership of
    the gene itself in the expanded set A makes Present_in_A "True": the
    gene is the matched key or one of the matched synonyms, and both are
    tested. *)
Theorem compare_files_matched_direct
    (d : dict (gset string)) (A B : gset string) (r : ResultRecord) :
  r ∈ compare_files d A B →
  Exists (matches (Gene r)) d →
  Gene r ∈ expand_gene_set_with_synonyms A d →
  Present_in_A r = "True".
Proof.
  intros [_ Hr]%elem_of_compare_files Hex HE.
  remember (Gene r) as gene_b eqn:Hg. clear Hg.
  destruct (first_match_split _ _ Hex)
    as (pre & [canon syns] & post & -> & Hpre & Hm).
  rewrite (compare_gene_matched _ gene_b pre canon syns post Hpre Hm) in Hr.
  subst r. simpl.
  set (E := expand_gene_set_with_synonyms A _) in *.
  destruct Hm as [Hm|Hm]; simpl in Hm.
  - subst canon. by rewrite bool_decide_true.
  - assert (any_in E syns = true) as -> by (apply any_in_spec; by exists gene_b).
    by rewrite orb_true_r.
Qed.

Lemma compare_files_matched_direct_witness :
  Present_in_A
    {| Gene := "p53"; Synonyms := "tp53|trp53"; Present_in_A := "True" |}
  = "True".
Proof.
  apply (compare_files_matched_direct
           [("tp53", {["p53"; "trp53"]})] {["p53"]} {["p53"]}).
  - vm_compute. apply list_elem_of_here.
  - apply (bool_decide_unpack _). vm_compute. exact I.
  - apply (bool_decide_unpack _). vm_compute. exact I.
Defined.

(** The scenarios of the specification. *)
Example scenario_1 :
  compare_files [("tp53", {["p53"; "trp53"]})] {["p53"]} {["tp53"]}
  = [{| Gene := "tp53"; Synonyms := "p53|trp53"; Present_in_A := "True" |}].
Proof. by vm_compute. Qed.

Example scenario_2 :
  compare_files [("brca1", ∅)] {["brca2"]} {["brca1"]}
  = [{| Gene := "brca1"; Synonyms := ""; Present_in_A := "False" |}].
Proof. by vm_compute. Qed.

Example scenario_3 :
  compare_files [("tp53", {["p53"; "trp53"]})] {["brca2"]} {["xyz"]}
  = [{| Gene := "xyz"; Synonyms := ""; Present_in_A := "False" |}].
Proof. by vm_compute. Qed.

Example scenario_4 :
  compare_files [("foo", {["bar"; "baz"]})] {["foo"]} {["bar"]}
  = [{| Gene := "bar"; Synonyms := "baz|foo"; Present_in_A := "True" |}].
Proof. by vm_compute. Qed.

(** ** The synonym index *)

Section Load.
Implicit Types (fn row : list string) (rows : list (list string))
  (gd d : dict (gset string)) (k : string).

Lemma lower_empty s : Py.lower s = "" ↔ s = "".
Proof. by destruct s. Qed.

(** [split] cuts at the separators only: joining the pieces with the
    separator gives the string back. *)
Lemma split_nonempty sep s : Py.split sep s ≠ [].
Proof.
  induction s as [|c s IH]; simpl; [done|].
  destruct (Ascii.eqb c sep); [done|]. by destruct (Py.split sep s).
Qed.

Lemma join_split sep s : Py.join (String sep "") (Py.split sep s) = s.
Proof.
  induction s as [|c s IH]; simpl; [done|].
  destruct (Ascii.eqb c sep) eqn:Hc.
  - apply Ascii.eqb_eq in Hc as ->.
    pose proof (split_nonempty sep s) as Hne.
    destruct (Py.split sep s) as [|p ps]; [done|].
    simpl in *. by rewrite IH.
  - pose proof (split_nonempty sep s) as Hne.
    destruct (Py.split sep s) as [|p ps]; [done|].
    simpl in *. destruct ps; simpl in *; by rewrite <-IH.
Qed.

Lemma elem_of_synonyms_of_field field x :
  x ∈ synonyms_of_field field ↔
  ∃ f piece, field = Some f ∧ f ≠ "" ∧ piece ∈ Py.split "|" f
             ∧ x = Py.lower (Py.strip piece).
Proof.
  destruct field as [[|c f]|]; simpl.
  - split; [by intros ?%elem_of_nil|]. by intros (? & ? & [= <-] & ? & _).
  - rewrite list_elem_of_fmap. split.
    + intros (piece & -> & Hp). by exists (String c f), piece.
    + intros (f' & piece & [= <-] & _ & Hp & ->). by exists piece.
  - split; [by intros ?%elem_of_nil|]. by intros (? & ? & [=] & _).
Qed.

Lemma synonyms_of_field_falsy field :
  Py.truthy field = false → synonyms_of_field field = [].
Proof. by destruct field as [[|c f]|]. Qed.

(** *** The row dictionary *)

Lemma foldl_insert_None_lookup (l : list string)
    (m : gmap string (option string)) k :
  foldl (λ acc key, <[key := None]> acc) m l !! k
  = if decide (k ∈ l) then Some None else m !! k.
Proof.
  revert m. induction l as [|a l IH]; intros m; cbn [foldl].
  - by rewrite decide_False by apply not_elem_of_nil.
  - rewrite IH. destruct (decide (k = a)) as [->|Hne].
    + rewrite lookup_insert_eq.
      rewrite (decide_True (P := a ∈ a :: l)) by (apply elem_of_cons; by left).
      by destruct (decide (a ∈ l)).
    + rewrite lookup_insert_ne by done.
      destruct (decide (k ∈ l)) as [Hin|Hin].
      * rewrite decide_True; [done|]. apply elem_of_cons. by right.
      * rewrite decide_False; [done|]. by intros [?|?]%elem_of_cons.
Qed.

Lemma foldl_insert_Some_lookup (l : list (string * string))
    (m : gmap string (option string)) k :
  k ∈ l.*1 ∨ is_Some (m !! k) →
  is_Some (foldl (λ acc kv, <[kv.1 := Some kv.2]> acc) m l !! k).
Proof.
  revert m. induction l as [|[a b] l IH]; intros m; simpl.
  - intros [?%elem_of_nil|?]; done.
  - intros Hk. apply IH.
    destruct (decide (k = a)) as [->|Hne].
    + right. rewrite lookup_insert_eq. eauto.
    + destruct Hk as [[?|?]%elem_of_cons|?]; [done|by left|].
      right. by rewrite lookup_insert_ne.
Qed.

Lemma fst_zip_take {X Y} (l : list X) (l' : list Y) :
  (zip l l').*1 = take (length l') l.
Proof.
  revert l'. induction l as [|x l IH]; intros [|y l']; simpl; [done..|].
  by rewrite IH.
Qed.

(** Every column named in the header is a key of every row dictionary. *)
Lemma dict_row_is_Some fn row k :
  k ∈ fn → is_Some (dict_row fn row !! k).
Proof.
  intros Hk. unfold dict_row. rewrite foldl_insert_None_lookup.
  case_decide as Hd; [eauto|].
  apply foldl_insert_Some_lookup. left. rewrite fst_zip_take.
  rewrite <-(take_drop (length row) fn) in Hk.
  apply elem_of_app in Hk as [?|?]; done.
Qed.

Lemma required_columns_spec fn :
  required_columns ⊆ list_to_set fn ↔ "Symbol" ∈ fn ∧ "Synonyms" ∈ fn.
Proof.
  unfold required_columns. split.
  - intros Hsub. split; apply (elem_of_list_to_set (C := gset string));
      apply Hsub; set_solver.
  - intros [H1 H2] x [->%elem_of_singleton| ->%elem_of_singleton]%elem_of_union;
      by apply elem_of_list_to_set.
Qed.

(** *** The loop over the rows *)

Lemma parse_row_Ok fn row k syns :
  parse_row fn row = Ok (k, syns) ↔
  ∃ symbol field,
    dict_row fn row !! "Symbol" = Some (Some symbol) ∧
    dict_row fn row !! "Synonyms" = Some field ∧
    k = Py.lower (Py.strip symbol) ∧ syns = synonyms_of_field field.
Proof.
  unfold parse_row.
  destruct (dict_row fn row !! "Symbol") as [[symbol|]|];
    [|split; [done|by intros (? & ? & [=] & _)]..].
  destruct (dict_row fn row !! "Synonyms") as [field|].
  - split.
    + intros [= <- <-]. by exists symbol, field.
    + by intros (? & ? & [= <-] & [= <-] & -> & ->).
  - split; [done|]. by intros (? & ? & _ & [=] & _).
Qed.

Lemma load_row_Ok fn gd row d :
  load_row fn gd row = Ok d ↔
  ∃ k syns, parse_row fn row = Ok (k, syns)
            ∧ d = dict_set k (list_to_set syns) gd.
Proof.
  unfold load_row. destruct (parse_row fn row) as [[k syns]|e].
  - split; [intros [= <-]; by exists k, syns|].
    by intros (? & ? & [= <- <-] & ->).
  - split; [done|]. by intros (? & ? & [=] & _).
Qed.

Lemma load_rows_untouched fn rows gd d k :
  load_rows fn gd rows = Ok d →
  (∀ r s, r ∈ rows → parse_row fn r ≠ Ok (k, s)) →
  dict_get d k = dict_get gd k.
Proof.
  revert gd. induction rows as [|row rows IH]; intros gd; simpl.
  - by intros [= ->].
  - destruct (load_row fn gd row) as [gd'|e] eqn:Hrow; [|done].
    apply load_row_Ok in Hrow as (k' & syns & Hp & ->).
    intros Hd Hno. rewrite (IH _ Hd).
    + apply dict_get_set_ne. intros ->.
      apply (Hno row syns); [|done]. apply elem_of_cons. by left.
    + intros r s Hr. apply Hno, elem_of_cons. by right.
Qed.

(** The last row with a key decides its value. *)
Lemma load_rows_last fn pre row post gd d k syns :
  load_rows fn gd (pre ++ row :: post) = Ok d →
  parse_row fn row = Ok (k, syns) →
  (∀ r s, r ∈ post → parse_row fn r ≠ Ok (k, s)) →
  dict_get d k = Some (list_to_set syns).
Proof.
  revert gd. induction pre as [|a pre IH]; intros gd; simpl.
  - intros Hd Hp Hno. unfold load_row in Hd. rewrite Hp in Hd.
    rewrite (load_rows_untouched _ _ _ _ _ Hd Hno).
    apply dict_get_set_eq.
  - destruct (load_row fn gd a) as [gd'|e]; [|done]. apply IH.
Qed.

Lemma load_rows_keys fn rows gd d k :
  load_rows fn gd rows = Ok d →
  (k ∈ dict_keys d ↔
   k ∈ dict_keys gd ∨ ∃ r s, r ∈ rows ∧ parse_row fn r = Ok (k, s)).
Proof.
  revert gd. induction rows as [|row rows IH]; intros gd; simpl.
  - intros [= ->]. split; [by left|].
    by intros [?|(? & ? & ?%elem_of_nil & _)].
  - destruct (load_row fn gd row) as [gd'|e] eqn:Hrow; [|done].
    apply load_row_Ok in Hrow as (k' & syns & Hp & ->).
    intros Hd. rewrite (IH _ Hd), dict_keys_set. split.
    + intros [[->|?]|(r & s & Hr & Hs)].
      * right. exists row, syns. split; [|done]. apply elem_of_cons. by left.
      * by left.
      * right. exists r, s. split; [|done]. apply elem_of_cons. by right.
    + intros [?|(r & s & [->|Hr]%elem_of_cons & Hs)].
      * left; by right.
      * rewrite Hp in Hs. injection Hs as -> _. left; by left.
      * right. by exists r, s.
Qed.

Lemma load_rows_NoDup fn rows gd d :
  load_rows fn gd rows = Ok d → NoDup (dict_keys gd) → NoDup (dict_keys d).
Proof.
  revert gd. induction rows as [|row rows IH]; intros gd; simpl.
  - by intros [= ->].
  - destruct (load_row fn gd row) as [gd'|e] eqn:Hrow; [|done].
    apply load_row_Ok in Hrow as (k' & syns & Hp & ->).
    intros Hd Hnd. apply (IH _ Hd). by apply dict_keys_set_NoDup.
Qed.

(** Every value of the index comes from some row. *)
Lemma load_rows_get_inv fn rows gd d k v :
  load_rows fn gd rows = Ok d → dict_get d k = Some v →
  dict_get gd k = Some v
  ∨ ∃ r s, r ∈ rows ∧ parse_row fn r = Ok (k, s) ∧ v = list_to_set s.
Proof.
  revert gd. induction rows as [|row rows IH]; intros gd; simpl.
  - intros [= ->]. by left.
  - destruct (load_row fn gd row) as [gd'|e] eqn:Hrow; [|done].
    apply load_row_Ok in Hrow as (k' & syns & Hp & ->).
    intros Hd Hk. destruct (IH _ Hd Hk) as [Hg|(r & s & Hr & Hs & ->)].
    + destruct (decide (k' = k)) as [->|Hne].
      * rewrite dict_get_set_eq in Hg. injection Hg as <-.
        right. exists row, syns. split_and!; [|done..].
        apply elem_of_cons. by left.
      * rewrite dict_get_set_ne in Hg by done. by left.
    + right. exists r, s. split_and!; [|done..]. apply elem_of_cons. by right.
Qed.

(** The loop goes through when every row reaches the Symbol column. *)
Lemma load_rows_total fn rows gd :
  "Synonyms" ∈ fn →
  Forall (λ row, ∃ symbol,
            dict_row fn row !! "Symbol" = Some (Some symbol)) rows →
  ∃ d, load_rows fn gd rows = Ok d.
Proof.
  intros Hsyn Hrows. revert gd.
  induction Hrows as [|row rows [symbol Hsym] _ IH]; intros gd; simpl.
  - by exists gd.
  - destruct (dict_row_is_Some fn row "Synonyms" Hsyn) as [field Hfield].
    unfold load_row, parse_row. rewrite Hsym, Hfield. apply IH.
Qed.
End Load.

(** C3 at a row with an empty piece between two pipes: the piece is kept,
    and the synonym set of the row holds the empty string. *)
Theorem load_gene_info_keeps_empty_piece :
  load_gene_info (Some [["Symbol"; "Synonyms"]; ["TP53"; "p53||Trp53"]])
  = Ok [("tp53", {["p53"; ""; "trp53"]})]
  ∧ "" ∈ ({["p53"; ""; "trp53"]} : gset string).
Proof.
  split; [by vm_compute|].
  apply (bool_decide_unpack _). by vm_compute.
Qed.

(** What the loader does build: every synonym set of the index comes from
    a row of the table whose normalised symbol is the key; it holds the
    trimmed and lowercased pieces of that row's synonym field split on the
    pipe character, every piece counted (nothing when the field is empty or
    missing), so it holds the empty string exactly when some piece of a
    non-empty field is empty or blank. *)
Lemma load_gene_info_synonym_sets
    (file : csv_file) (d : dict (gset string)) (k : string)
    (syns : gset string) :
  load_gene_info file = Ok d →
  dict_get d k = Some syns →
  ∃ fn rows row symbol field,
    file = Some (fn :: rows) ∧ row ∈ data_rows rows
    ∧ dict_row fn row !! "Symbol" = Some (Some symbol)
    ∧ dict_row fn row !! "Synonyms" = Some field
    ∧ k = Py.lower (Py.strip symbol)
    ∧ built_from_field field syns.
Proof.
  intros Hload Hk. destruct file as [[|fn rows]|]; simpl in Hload; [done| |done].
  case_bool_decide; [|done].
  destruct (load_rows_get_inv _ _ _ _ _ _ Hload Hk)
    as [?|(row & l & Hrow & Hp & ->)]; [done|].
  apply parse_row_Ok in Hp as (symbol & field & Hsym & Hfield & -> & ->).
  exists fn, rows, row, symbol, field. split_and!; try done.
  unfold built_from_field. split.
  - intros x. rewrite elem_of_list_to_set. apply elem_of_synonyms_of_field.
  - rewrite elem_of_list_to_set, elem_of_synonyms_of_field. split.
    + intros (f & piece & ? & ? & ? & Hl). exists f, piece.
      split_and!; try done. apply lower_empty. by symmetry.
    + intros (f & piece & ? & ? & ? & Hl). exists f, piece.
      split_and!; try done. by rewrite Hl.
Qed.

(** Two unrelated genes whose synonym fields end in a pipe share the empty
    string, and the second is then reported as present in file A. *)
Example empty_piece_false_positive :
  load_gene_info
    (Some [["Symbol"; "Synonyms"]; ["GENEX"; "a|"]; ["GENEY"; "b|"]])
  = Ok [("genex", {["a"; ""]}); ("geney", {["b"; ""]})]
  ∧ compare_files [("genex", {["a"; ""]}); ("geney", {["b"; ""]})]
      {["genex"]} {["geney"]}
    = [{| Gene := "geney"; Synonyms := "|b"; Present_in_A := "True" |}].
Proof. split; by vm_compute. Qed.

Lemma load_gene_info_synonym_sets_witness :
  ∃ fn rows row symbol field,
    Some [["Symbol"; "Synonyms"]; ["TP53"; "p53| Trp53 "]]
      = Some (fn :: rows) ∧ row ∈ data_rows rows
    ∧ dict_row fn row !! "Symbol" = Some (Some symbol)
    ∧ dict_row fn row !! "Synonyms" = Some field
    ∧ "tp53" = Py.lower (Py.strip symbol)
    ∧ built_from_field field {["p53"; "trp53"]}.
Proof.
  apply (load_gene_info_synonym_sets
           (Some [["Symbol"; "Synonyms"]; ["TP53"; "p53| Trp53 "]])
           [("tp53", {["p53"; "trp53"]})]).
  - vm_compute. reflexivity.
  - vm_compute. reflexivity.
Defined.

(** C8: when the header names both columns and every row reaches the
    Symbol column, the loader returns an index whose keys are distinct and
    are the normalised symbols of the rows; the last row with a given key
    decides the key's synonym set, and a row with an empty synonym field
    keeps its key in the index, mapped to the empty set unless a later row
    with the same key replaces it. *)
Theorem load_gene_info_index (fn : list string) (rows : list (list string)) :
  required_columns ⊆ list_to_set fn →
  Forall (λ row, ∃ symbol, dict_row fn row !! "Symbol" = Some (Some symbol))
         (data_rows rows) →
  ∃ d, load_gene_info (Some (fn :: rows)) = Ok d ∧ index_of_table fn rows d.
Proof.
  intros Hreq Hrows. pose proof Hreq as [_ Hsyn]%required_columns_spec.
  destruct (load_rows_total fn (data_rows rows) [] Hsyn Hrows) as [d Hd].
  exists d. split; [simpl; by rewrite bool_decide_true|].
  assert (Hkeys : ∀ k, is_Some (dict_get d k) ↔
            ∃ row syns, row ∈ data_rows rows
                        ∧ parse_row fn row = Ok (k, syns)).
  { intros k. rewrite dict_get_is_Some, (load_rows_keys _ _ _ _ k Hd).
    split; [|by right]. by intros [?%elem_of_nil|?]. }
  split_and!.
  - apply (load_rows_NoDup _ _ _ _ Hd), NoDup_nil_2.
  - done.
  - intros pre row post k syns Heq Hp Hno. rewrite Heq in Hd.
    by apply (load_rows_last _ _ _ _ _ _ _ _ Hd).
  - intros pre row post symbol field Heq Hsym Hfield Hfalsy.
    assert (Hp : parse_row fn row = Ok (Py.lower (Py.strip symbol), [])).
    { apply parse_row_Ok. exists symbol, field. split_and!; try done.
      by rewrite synonyms_of_field_falsy. }
    split.
    + apply Hkeys. exists row, []. split; [|done].
      rewrite Heq. apply elem_of_app. right. apply elem_of_cons. by left.
    + intros Hno. rewrite Heq in Hd.
      by rewrite (load_rows_last _ _ _ _ _ _ _ _ Hd Hp Hno).
Qed.

Lemma load_gene_info_index_witness :
  let fn := ["GeneID"; "Symbol"; "Synonyms"] in
  let rows :=
    [["1"; "TP53"; "p53"]; []; ["2"; "BRCA1"; ""]; ["3"; "tp53 "; "LFS1"]] in
  ∃ d, load_gene_info (Some (fn :: rows)) = Ok d ∧ index_of_table fn rows d.
Proof.
  intros fn rows. apply (load_gene_info_index fn rows).
  - apply (bool_decide_unpack _). vm_compute. exact I.
  - change (data_rows rows)
      with [["1"; "TP53"; "p53"]; ["2"; "BRCA1"; ""]; ["3"; "tp53 "; "LFS1"]].
    repeat apply Forall_cons_2; [| | |apply Forall_nil_2].
    + exists "TP53". vm_compute. reflexivity.
    + exists "BRCA1". vm_compute. reflexivity.
    + exists "tp53 ". vm_compute. reflexivity.
Defined.

(** ** Errors of the loader *)




(** A failure of the loader ends the run before the gene lists are read
    and before anything is compared or written. *)
Lemma main_aborts_on_load_error (gene_info : csv_file)
    (file_a file_b : text_file) (writable : bool) (e : exn) :
  load_gene_info gene_info = Raise e →
  main gene_info file_a file_b writable
  = ([LoadingGeneInfo; ErrorReadingGeneInfo e; Error e], None).
Proof. intros He. unfold main. by rewrite He. Qed.

(** C9 at a gene info file with no line at all, which has neither
    column: the loader fails, and the run ends before any comparison, but
    the exception is the TypeError of iterating over the missing header,
    not the ValueError of the column check. *)
Theorem load_gene_info_empty_file :
  load_gene_info (Some []) = Raise TypeError
  ∧ TypeError ≠ ValueError
  ∧ ∀ file_a file_b writable,
      main (Some []) file_a file_b writable
      = ([LoadingGeneInfo; ErrorReadingGeneInfo TypeError; Error TypeError],
         None).
Proof. split_and!; done. Qed.

(** ** Expansion over the store *)

Section StoreExpand.
Implicit Types (σ : gmap Store.loc Store.obj) (d : dict Store.loc)
  (l r : Store.loc)
  (acc : gset string).

Lemma dict_get_index_of σ d k :
  dict_get (Store.index_of σ d) k = Store.set_at σ <$> dict_get d k.
Proof.
  unfold Store.index_of. induction d as [|[k' l] d IH]; simpl; [done|].
  by case_decide.
Qed.

Lemma dict_wf_get σ d k l :
  Store.dict_wf σ d → dict_get d k = Some l →
  σ !! l = Some (Store.OSet (Store.set_at σ l)).
Proof.
  intros Hwf Hk. apply dict_get_Some_elem in Hk.
  unfold Store.dict_wf in Hwf. rewrite Forall_forall in Hwf.
  destruct (Hwf _ Hk) as [s Hs]. simpl in Hs.
  unfold Store.set_at. by rewrite Hs.
Qed.

(** One turn of the loop changes the new set only, the way the pure
    step does. *)
Lemma expand_step_fresh σ gene_dict d r acc gene :
  σ !! r = None → σ !! gene_dict = Some (Store.ODict d) → Store.dict_wf σ d →
  Store.expand_step gene_dict r (Some (<[r := Store.OSet acc]> σ)) gene
  = Some (<[r := Store.OSet (expand_step (Store.index_of σ d) acc gene)]> σ).
Proof.
  intros Hr Hd Hwf. unfold Store.expand_step, expand_step, Store.set_add. simpl.
  rewrite lookup_insert_eq. simpl. rewrite insert_insert_eq.
  assert (gene_dict ≠ r) as Hne by congruence.
  rewrite lookup_insert_ne by done. rewrite Hd, dict_get_index_of.
  destruct (dict_get d gene) as [l|] eqn:Hg; simpl; [|done].
  pose proof (dict_wf_get _ _ _ _ Hwf Hg) as Hl.
  assert (l ≠ r) as Hne' by congruence.
  unfold Store.set_update. rewrite lookup_insert_eq, lookup_insert_ne by done.
  by rewrite Hl, insert_insert_eq.
Qed.

Lemma expand_loop_fresh σ gene_dict d r genes acc :
  σ !! r = None → σ !! gene_dict = Some (Store.ODict d) → Store.dict_wf σ d →
  foldl (Store.expand_step gene_dict r) (Some (<[r := Store.OSet acc]> σ)) genes
  = Some (<[r := Store.OSet
                   (foldl (expand_step (Store.index_of σ d)) acc genes)]> σ).
Proof.
  intros Hr Hd Hwf. revert acc.
  induction genes as [|gene genes IH]; intros acc; cbn [foldl]; [done|].
  by rewrite (expand_step_fresh σ gene_dict d), IH.
Qed.
End StoreExpand.

(** C7: run on a store where gene_set is a set object S and gene_dict a
    dictionary whose values are set objects, the expansion returns a newly
    allocated set and changes no object that existed before, so S, the
    dictionary and every synonym set are as they were; the new set is the
    expansion of S and has at least as many elements as S. *)
Theorem expand_pure_and_no_smaller
    (σ : gmap Store.loc Store.obj) (gene_set gene_dict : Store.loc)
    (S : gset string) (d : dict Store.loc) :
  σ !! gene_set = Some (Store.OSet S) →
  σ !! gene_dict = Some (Store.ODict d) →
  Store.dict_wf σ d →
  ∃ r σ',
    Store.expand_gene_set_with_synonyms gene_set gene_dict σ = Some (r, σ')
    ∧ σ !! r = None
    ∧ (∀ l, l ≠ r → σ' !! l = σ !! l)
    ∧ σ' !! gene_set = Some (Store.OSet S)
    ∧ σ' !! gene_dict = Some (Store.ODict d)
    ∧ Store.index_of σ' d = Store.index_of σ d
    ∧ σ' !! r
      = Some (Store.OSet
                (expand_gene_set_with_synonyms S (Store.index_of σ d)))
    ∧ (size S
       ≤ size (expand_gene_set_with_synonyms S (Store.index_of σ d)))%nat.
Proof.
  intros HS Hd Hwf.
  set (r := fresh (dom σ)).
  assert (Hr : σ !! r = None).
  { apply (not_elem_of_dom (D := gset Store.loc)), is_fresh. }
  set (E := expand_gene_set_with_synonyms S (Store.index_of σ d)).
  exists r, (<[r := Store.OSet E]> σ).
  assert (Hother : ∀ l, l ≠ r → <[r := Store.OSet E]> σ !! l = σ !! l).
  { intros l Hl. by rewrite lookup_insert_ne. }
  split_and!.
  - unfold Store.expand_gene_set_with_synonyms, Store.new_set. rewrite HS.
    fold r. by rewrite (expand_loop_fresh σ gene_dict d r _ ∅ Hr Hd Hwf).
  - done.
  - done.
  - rewrite Hother; [done|congruence].
  - rewrite Hother; [done|congruence].
  - unfold Store.index_of. apply list_fmap_ext. intros i [k l] Hi. simpl.
    f_equal. unfold Store.set_at. rewrite Hother; [done|].
    apply list_elem_of_lookup_2 in Hi.
    unfold Store.dict_wf in Hwf. rewrite Forall_forall in Hwf.
    destruct (Hwf _ Hi) as [s Hs]. simpl in Hs. congruence.
  - apply lookup_insert_eq.
  - apply expand_size.
Qed.

Lemma expand_pure_and_no_smaller_witness :
  let S : gset string := {["tp53"]} in
  let d : dict Store.loc := [("tp53", 3%positive)] in
  let σ : gmap Store.loc Store.obj :=
    list_to_map [(1%positive, Store.OSet S); (2%positive, Store.ODict d);
                 (3%positive, Store.OSet {["p53"; "trp53"]})] in
  ∃ r σ',
    Store.expand_gene_set_with_synonyms 1%positive 2%positive σ = Some (r, σ')
    ∧ σ !! r = None
    ∧ (∀ l, l ≠ r → σ' !! l = σ !! l)
    ∧ σ' !! 1%positive = Some (Store.OSet S)
    ∧ σ' !! 2%positive = Some (Store.ODict d)
    ∧ Store.index_of σ' d = Store.index_of σ d
    ∧ σ' !! r
      = Some (Store.OSet
                (expand_gene_set_with_synonyms S (Store.index_of σ d)))
    ∧ (size S
       ≤ size (expand_gene_set_with_synonyms S (Store.index_of σ d)))%nat.
Proof.
  intros S d σ.
  apply (expand_pure_and_no_smaller σ 1%positive 2%positive S d).
  - vm_compute. reflexivity.
  - vm_compute. reflexivity.
  - apply Forall_cons_2; [|apply Forall_nil_2].
    exists {["p53"; "trp53"]}. vm_compute. reflexivity.
Defined.

(** * Further properties *)

(** ** Normal forms of gene names *)

Section Normal.
Implicit Types (c : ascii) (s t : string).

Lemma isspace_lower_ascii c : Py.isspace (Py.lower_ascii c) = Py.isspace c.
Proof. by destruct c as [[] [] [] [] [] [] [] []]. Qed.

Lemma lower_ascii_idemp c :
  Py.lower_ascii (Py.lower_ascii c) = Py.lower_ascii c.
Proof. by destruct c as [[] [] [] [] [] [] [] []]. Qed.

Lemma lower_idemp s : Py.lower (Py.lower s) = Py.lower s.
Proof. induction s as [|c s IH]; simpl; [done|]. by rewrite lower_ascii_idemp, IH. Qed.

Lemma lstrip_lower s : Py.lstrip (Py.lower s) = Py.lower (Py.lstrip s).
Proof.
  induction s as [|c s IH]; simpl; [done|].
  rewrite isspace_lower_ascii. by destruct (Py.isspace c).
Qed.

Lemma rstrip_lower s : Py.rstrip (Py.lower s) = Py.lower (Py.rstrip s).
Proof.
  induction s as [|c s IH]; simpl; [done|].
  rewrite IH, isspace_lower_ascii.
  destruct (Py.rstrip s); simpl; [by destruct (Py.isspace c)|done].
Qed.

Lemma strip_lower s : Py.strip (Py.lower s) = Py.lower (Py.strip s).
Proof. unfold Py.strip. by rewrite lstrip_lower, rstrip_lower. Qed.

Lemma rstrip_idemp s : Py.rstrip (Py.rstrip s) = Py.rstrip s.
Proof.
  induction s as [|c s IH]; [done|].
  cbn [Py.rstrip]. fold Py.rstrip.
  destruct (Py.rstrip s) as [|c' r] eqn:Hr.
  - destruct (Py.isspace c) eqn:Hc; simpl; [done|]. by rewrite Hc.
  - change (Py.rstrip (String c (String c' r)))
      with (match Py.rstrip (String c' r) with
            | EmptyString =>
                if Py.isspace c then EmptyString else String c EmptyString
            | String _ _ as r0 => String c r0
            end).
    by rewrite IH.
Qed.

Lemma no_lead_lstrip s : no_lead (Py.lstrip s).
Proof.
  induction s as [|c s IH]; simpl; [done|].
  by destruct (Py.isspace c) eqn:Hc.
Qed.

Lemma no_lead_rstrip s : no_lead s → no_lead (Py.rstrip s).
Proof.
  destruct s as [|c s]; simpl; [done|]. intros Hc.
  destruct (Py.rstrip s); [by rewrite Hc|done].
Qed.

Lemma lstrip_no_lead s : no_lead s → Py.lstrip s = s.
Proof. destruct s as [|c s]; simpl; [done|]. by intros ->. Qed.

Lemma strip_idemp s : Py.strip (Py.strip s) = Py.strip s.
Proof.
  unfold Py.strip.
  rewrite (lstrip_no_lead (Py.rstrip _)) by apply no_lead_rstrip, no_lead_lstrip.
  apply rstrip_idemp.
Qed.

(** The normal form [s.strip().lower()] is trimmed and lowercase. *)
Lemma normal_form s :
  Py.lower (Py.lower (Py.strip s)) = Py.lower (Py.strip s)
  ∧ Py.strip (Py.lower (Py.strip s)) = Py.lower (Py.strip s).
Proof. split; [apply lower_idemp|]. by rewrite strip_lower, strip_idemp. Qed.
End Normal.

(** ** [read_gene_file] *)

Lemma elem_of_read_gene_file (lines : list string) (g : string) :
  ∃ genes, read_gene_file (Some lines) = Ok genes
    ∧ (g ∈ genes ↔
       g ≠ "" ∧ ∃ line, line ∈ lines ∧ g = Py.lower (Py.strip line)).
Proof.
  eexists. split; [done|].
  rewrite elem_of_list_to_set, list_elem_of_fmap. split.
  - intros (line & -> & [Hne Hin]%list_elem_of_filter). split; [|by exists line].
    by rewrite lower_empty.
  - intros (Hne & line & Hin & ->). exists line. split; [done|].
    apply list_elem_of_filter. split; [|done]. by rewrite lower_empty in Hne.
Qed.

(** X1: every gene name that [read_gene_file] returns is non-empty, has no
    whitespace at either end and is lowercase. *)
Theorem read_gene_file_normalized
    (file : text_file) (genes : gset string) (g : string) :
  read_gene_file file = Ok genes → g ∈ genes →
  g ≠ "" ∧ Py.strip g = g ∧ Py.lower g = g.
Proof.
  destruct file as [lines|]; [|done]. intros Hread Hg.
  destruct (elem_of_read_gene_file lines g) as (genes' & Hread' & Hiff).
  rewrite Hread in Hread'. injection Hread' as <-.
  apply Hiff in Hg as (Hne & line & _ & ->).
  split_and!; [done|apply normal_form..].
Qed.

Lemma read_gene_file_normalized_witness :
  "tp53" ≠ "" ∧ Py.strip "tp53" = "tp53" ∧ Py.lower "tp53" = "tp53".
Proof.
  apply (read_gene_file_normalized (Some [" TP53 "; ""; "tp53"]) {["tp53"]}).
  - vm_compute. reflexivity.
  - apply (bool_decide_unpack _). vm_compute. exact I.
Defined.

(** X2: two gene lists give the same set exactly when they have the same
    non-blank lines up to case and surrounding whitespace; blank lines,
    repetitions and the order of the lines play no part. *)
Theorem read_gene_file_same (lines1 lines2 : list string) :
  read_gene_file (Some lines1) = read_gene_file (Some lines2) ↔
  ∀ g, g ≠ "" →
    (∃ line, line ∈ lines1 ∧ g = Py.lower (Py.strip line)) ↔
    (∃ line, line ∈ lines2 ∧ g = Py.lower (Py.strip line)).
Proof.
  destruct (elem_of_read_gene_file lines1 "") as (S1 & H1 & _).
  destruct (elem_of_read_gene_file lines2 "") as (S2 & H2 & _).
  assert (HS1 : ∀ g, g ∈ S1 ↔
            g ≠ "" ∧ ∃ line, line ∈ lines1 ∧ g = Py.lower (Py.strip line)).
  { intros g. destruct (elem_of_read_gene_file lines1 g) as (S & HS & Hiff).
    rewrite H1 in HS. by injection HS as <-. }
  assert (HS2 : ∀ g, g ∈ S2 ↔
            g ≠ "" ∧ ∃ line, line ∈ lines2 ∧ g = Py.lower (Py.strip line)).
  { intros g. destruct (elem_of_read_gene_file lines2 g) as (S & HS & Hiff).
    rewrite H2 in HS. by injection HS as <-. }
  rewrite H1, H2. split.
  - intros [= ->] g Hg. specialize (HS1 g). specialize (HS2 g).
    rewrite HS2 in HS1. tauto.
  - intros Hsame. f_equal. apply set_eq. intros g.
    rewrite HS1, HS2. specialize (Hsame g). tauto.
Qed.

(** For instance a list and the same list in capitals, padded, shuffled
    and with blank lines. *)
Example read_gene_file_same_example :
  read_gene_file (Some ["tp53"; "brca1"])
  = read_gene_file (Some [""; "  BRCA1"; "TP53 "; "   "; "Brca1"]).
Proof. by vm_compute. Qed.

(** X3: the set that [read_gene_file] returns is a fixed point: a file
    that lists its elements, one per line and in any order, reads back as
    the same set. *)
Theorem read_gene_file_round_trip
    (file : text_file) (genes : gset string) (lines : list string) :
  read_gene_file file = Ok genes →
  lines ≡ₚ elements genes →
  read_gene_file (Some lines) = Ok genes.
Proof.
  intros Hread Hperm. destruct file as [lines0|]; [|done].
  assert (Hnormal : ∀ g, g ∈ genes →
            g ≠ "" ∧ Py.lower (Py.strip g) = g).
  { intros g Hg.
    destruct (elem_of_read_gene_file lines0 g) as (S0 & HS0 & Hiff0).
    rewrite Hread in HS0. injection HS0 as <-.
    apply Hiff0 in Hg as (Hne & line & _ & ->). split; [done|].
    by rewrite (proj2 (normal_form line)), (proj1 (normal_form line)). }
  destruct (elem_of_read_gene_file lines "") as (S & HS & _).
  rewrite HS. f_equal. apply set_eq. intros g.
  destruct (elem_of_read_gene_file lines g) as (S' & HS' & Hiff).
  rewrite HS in HS'. injection HS' as <-. rewrite Hiff. split.
  - intros (_ & line & Hline & ->).
    rewrite Hperm, elem_of_elements in Hline.
    by rewrite (proj2 (Hnormal line Hline)).
  - intros Hg. destruct (Hnormal g Hg) as [Hne Hn].
    split; [done|]. exists g. split; [|done].
    by rewrite Hperm, elem_of_elements.
Qed.

Lemma read_gene_file_round_trip_witness :
  read_gene_file (Some ["tp53"; "brca1"]) = Ok {["brca1"; "tp53"]}.
Proof.
  apply (read_gene_file_round_trip (Some [" TP53"; ""; "Brca1 "; "tp53"])).
  - vm_compute. reflexivity.
  - apply (bool_decide_unpack _). vm_compute. exact I.
Defined.

(** ** More on [load_gene_info] *)

(** X4: in a loaded index every key and every synonym is in normal form:
    lowercase and without whitespace at either end. *)
Theorem load_gene_info_normalized
    (file : csv_file) (d : dict (gset string)) (k : string)
    (syns : gset string) :
  load_gene_info file = Ok d → dict_get d k = Some syns →
  (Py.strip k = k ∧ Py.lower k = k)
  ∧ ∀ x, x ∈ syns → Py.strip x = x ∧ Py.lower x = x.
Proof.
  intros Hload Hk.
  destruct (load_gene_info_synonym_sets _ _ _ _ Hload Hk)
    as (fn & rows & row & symbol & field & _ & _ & _ & _ & -> & Hsyns & _).
  split; [split; apply normal_form|].
  intros x (f & piece & _ & _ & _ & ->)%Hsyns. split; apply normal_form.
Qed.

Lemma load_gene_info_normalized_witness :
  (Py.strip "tp53" = "tp53" ∧ Py.lower "tp53" = "tp53")
  ∧ ∀ x, x ∈ ({["p53"; "trp53"]} : gset string) →
         Py.strip x = x ∧ Py.lower x = x.
Proof.
  apply (load_gene_info_normalized
           (Some [["Symbol"; "Synonyms"]; [" TP53"; "P53 | Trp53"]])
           [("tp53", {["p53"; "trp53"]})]).
  - vm_compute. reflexivity.
  - vm_compute. reflexivity.
Defined.


Section Rows.
Implicit Types (fn row : list string) (k : string).

Lemma foldl_insert_Some_untouched (l : list (string * string))
    (m : gmap string (option string)) k :
  k ∉ l.*1 → foldl (λ acc kv, <[kv.1 := Some kv.2]> acc) m l !! k = m !! k.
Proof.
  revert m. induction l as [|[a b] l IH]; intros m Hk; cbn [foldl]; [done|].
  rewrite fmap_cons, not_elem_of_cons in Hk. destruct Hk as [Hne Hk].
  rewrite IH by done. simpl. by rewrite lookup_insert_ne.
Qed.



(** With distinct column names, a row that reaches a column holds its own
    field there. *)
Lemma dict_row_positional fn row i k v :
  NoDup fn → fn !! i = Some k → row !! i = Some v →
  dict_row fn row !! k = Some (Some v).
Proof.
  intros Hnd Hk Hv. unfold dict_row. rewrite foldl_insert_None_lookup.
  assert (Hi : (i < length row)%nat) by by eapply lookup_lt_Some.
  rewrite decide_False.
  2:{ rewrite <-(take_drop (length row) fn) in Hnd.
      apply NoDup_app in Hnd as (_ & Hdis & _). apply Hdis.
      apply list_elem_of_lookup. exists i. by rewrite lookup_take_lt. }
  clear Hi. generalize (∅ : gmap string (option string)).
  revert row i Hk Hv.
  induction fn as [|k0 fn IH]; intros [|v0 row] i Hk Hv m; try done.
  apply NoDup_cons in Hnd as [Hk0 Hnd]. destruct i as [|i]; simpl in *.
  - injection Hk as ->. injection Hv as ->.
    rewrite foldl_insert_Some_untouched; [apply lookup_insert_eq|].
    rewrite fst_zip_take. intros (i & Hi%list_elem_of_lookup_2 & _)%elem_of_take.
    done.
  - by apply (IH Hnd row i).
Qed.
End Rows.

(** X6: with distinct column names, a row long enough for both columns
    gives the normal form of the field under Symbol as its key and the
    pieces of the field under Synonyms as its synonyms, wherever the two
    columns stand in the table. *)
Theorem parse_row_positional
    (fn row : list string) (i j : nat) (symbol field : string) :
  NoDup fn →
  fn !! i = Some "Symbol" → fn !! j = Some "Synonyms" →
  row !! i = Some symbol → row !! j = Some field →
  parse_row fn row
  = Ok (Py.lower (Py.strip symbol), synonyms_of_field (Some field)).
Proof.
  intros Hnd Hi Hj Hs Hf. unfold parse_row.
  rewrite (dict_row_positional fn row i "Symbol" symbol) by done.
  by rewrite (dict_row_positional fn row j "Synonyms" field).
Qed.

Lemma parse_row_positional_witness :
  parse_row ["Synonyms"; "tax_id"; "Symbol"] ["p53|LFS1"; "9606"; "TP53"; "x"]
  = Ok (Py.lower (Py.strip "TP53"), synonyms_of_field (Some "p53|LFS1")).
Proof.
  apply (parse_row_positional _ _ 2 0).
  - apply (bool_decide_unpack _). vm_compute. exact I.
  - reflexivity.
  - reflexivity.
  - reflexivity.
  - reflexivity.
Defined.




Example load_gene_info_short_row_example :
  load_gene_info
    (Some [["GeneID"; "Symbol"; "Synonyms"]; ["1"; "TP53"; "p53"]; ["2"]])
  = Raise AttributeError.
Proof. by vm_compute. Qed.

(** *** The order of the keys *)

Section KeyOrder.
Implicit Types (l acc : list string) (k x : string).

Lemma dict_keys_set_order {V} (d : dict V) k (v : V) :
  dict_keys (dict_set k v d)
  = if decide (k ∈ dict_keys d) then dict_keys d else dict_keys d ++ [k].
Proof.
  unfold dict_keys. induction d as [|[k0 v0] d IH].
  - simpl. by destruct (decide (k ∈ [])) as [?%elem_of_nil|].
  - cbn [dict_set].
    destruct (decide (k = k0)) as [->|Hne]; rewrite !fmap_cons; cbn [fst].
    + rewrite decide_True; [done|]. apply elem_of_cons. by left.
    + rewrite IH. destruct (decide (k ∈ d.*1)) as [Hin|Hin].
      * rewrite decide_True; [done|]. apply elem_of_cons. by right.
      * rewrite decide_False; [done|]. by intros [?|?]%elem_of_cons.
Qed.

Lemma foldl_first_occurrences l acc :
  foldl (λ acc k, if decide (k ∈ acc) then acc else acc ++ [k]) acc l
  = acc ++ filter (λ y, y ∉ acc) (first_occurrences l).
Proof.
  revert acc. induction l as [|x l IH]; intros acc; simpl.
  - by rewrite app_nil_r.
  - destruct (decide (x ∈ acc)) as [Hin|Hin]; rewrite IH.
    + f_equal. rewrite filter_cons_False by (by intros ?).
      rewrite list_filter_filter_l; [done|]. by intros y Hy ->.
    + rewrite <-app_assoc. f_equal. simpl.
      rewrite (filter_cons_True (λ y, y ∉ acc)) by done. f_equal.
      rewrite list_filter_filter. apply list_filter_iff. intros y.
      rewrite not_elem_of_app, list_elem_of_singleton. tauto.
Qed.

Lemma filter_all (P : string → Prop) `{!∀ x, Decision (P x)} l :
  (∀ x, P x) → filter P l = l.
Proof.
  intros HP. induction l as [|x l IH]; [done|].
  by rewrite filter_cons_True, IH.
Qed.

Lemma load_rows_key_order (fn : list string) (rows : list (list string))
    (gd d : dict (gset string)) :
  load_rows fn gd rows = Ok d →
  ∃ entries,
    Forall2 (λ row e, parse_row fn row = Ok e) rows entries
    ∧ dict_keys d
      = foldl (λ acc k, if decide (k ∈ acc) then acc else acc ++ [k])
              (dict_keys gd) entries.*1.
Proof.
  revert gd. induction rows as [|row rows IH]; intros gd; simpl.
  - intros [= ->]. by exists [].
  - destruct (load_row fn gd row) as [gd'|e] eqn:Hrow; [|done].
    apply load_row_Ok in Hrow as (k & syns & Hp & ->).
    intros (entries & Hall & Hkeys)%IH. exists ((k, syns) :: entries).
    split; [by constructor|]. by rewrite Hkeys, dict_keys_set_order.
Qed.
End KeyOrder.

(** X8: the keys of a loaded index stand in the order in which they first
    occur in the table, which is the order [compare_files] searches them
    in; a later row with the same key changes the value, not the place. *)
Theorem load_gene_info_key_order
    (fn : list string) (rows : list (list string)) (d : dict (gset string)) :
  load_gene_info (Some (fn :: rows)) = Ok d →
  ∃ entries,
    Forall2 (λ row e, parse_row fn row = Ok e) (data_rows rows) entries
    ∧ dict_keys d = first_occurrences entries.*1.
Proof.
  simpl. case_bool_decide; [|done].
  intros (entries & Hall & Hkeys)%load_rows_key_order.
  exists entries. split; [done|].
  rewrite Hkeys, foldl_first_occurrences. simpl.
  apply filter_all. intros y. apply not_elem_of_nil.
Qed.

Lemma load_gene_info_key_order_witness :
  let fn := ["Symbol"; "Synonyms"] in
  let rows := [["B"; "x"]; ["A"; "y"]; []; ["b"; "z"]] in
  ∃ entries,
    Forall2 (λ row e, parse_row fn row = Ok e) (data_rows rows) entries
    ∧ dict_keys [("b", ({["z"]} : gset string)); ("a", {["y"]})]
      = first_occurrences entries.*1.
Proof.
  intros fn rows.
  apply (load_gene_info_key_order fn rows [("b", {["z"]}); ("a", {["y"]})]).
  vm_compute. reflexivity.
Defined.

(** ** More on expansion *)

Lemma expand_mono (S1 S2 : gset string) (d : dict (gset string)) :
  S1 ⊆ S2 →
  expand_gene_set_with_synonyms S1 d ⊆ expand_gene_set_with_synonyms S2 d.
Proof.
  intros Hsub x. rewrite !elem_of_expand.
  intros [?|(g & syns & ? & ? & ?)]; [left; by apply Hsub|].
  right. exists g, syns. split_and!; [by apply Hsub|done..].
Qed.

(** X9: expansion distributes over union, so it is monotone: a larger
    gene set has a larger expansion. *)
Theorem expand_union (S1 S2 : gset string) (d : dict (gset string)) :
  expand_gene_set_with_synonyms (S1 ∪ S2) d
  = expand_gene_set_with_synonyms S1 d ∪ expand_gene_set_with_synonyms S2 d
  ∧ (S1 ⊆ S2 →
     expand_gene_set_with_synonyms S1 d ⊆ expand_gene_set_with_synonyms S2 d).
Proof.
  split.
  - apply set_eq. intros x.
    rewrite elem_of_union, !elem_of_expand, elem_of_union. split.
    + intros [[?|?]|(g & syns & [?|?]%elem_of_union & ? & ?)].
      * left; by left.
      * right; by left.
      * left; right. by exists g, syns.
      * right; right. by exists g, syns.
    + intros [[?|(g & syns & ? & ? & ?)]|[?|(g & syns & ? & ? & ?)]].
      * left; by left.
      * right. exists g, syns. split_and!; [|done..]. apply elem_of_union. by left.
      * left; by right.
      * right. exists g, syns. split_and!; [|done..]. apply elem_of_union. by right.
  - apply expand_mono.
Qed.

Lemma expand_union_witness :
  let d : dict (gset string) := [("tp53", {["p53"; "trp53"]})] in
  expand_gene_set_with_synonyms {["p53"]} d
  ⊆ expand_gene_set_with_synonyms {["p53"; "tp53"]} d.
Proof.
  intros d. apply (proj2 (expand_union {["p53"]} {["p53"; "tp53"]} d)).
  apply (bool_decide_unpack _). vm_compute. exact I.
Defined.

(** X10: a gene set none of whose members is a canonical key comes back
    unchanged; in particular the empty set and every set under an empty
    index do. *)
Theorem expand_no_key (S : gset string) (d : dict (gset string)) :
  (∀ g, g ∈ S → dict_get d g = None) →
  expand_gene_set_with_synonyms S d = S.
Proof.
  intros Hno. apply set_eq. intros x. rewrite elem_of_expand.
  split; [|by left].
  intros [?|(g & syns & Hg & Hd & _)]; [done|].
  rewrite (Hno g Hg) in Hd. done.
Qed.

Lemma expand_no_key_witness :
  expand_gene_set_with_synonyms {["p53"; "abc"]} [("tp53", {["p53"; "trp53"]})]
  = {["p53"; "abc"]}.
Proof.
  apply expand_no_key.
  intros g Hg. apply elem_of_union in Hg as [Hg|Hg];
    apply elem_of_singleton in Hg as ->; reflexivity.
Defined.

(** ** More on the comparator *)

Section Present.
Implicit Types (d : dict (gset string)) (A B E : gset string)
  (canon gene_b : string) (syns : gset string) (r : ResultRecord).

Lemma present_spec E canon syns :
  bool_decide (canon ∈ E) || any_in E syns = true ↔
  canon ∈ E ∨ ∃ s, s ∈ syns ∧ s ∈ E.
Proof. by rewrite orb_true_iff, bool_decide_eq_true, any_in_spec. Qed.

Lemma str_of_bool_True (b : bool) : Py.str_of_bool b = "True" ↔ b = true.
Proof. by destruct b. Qed.

(** Every record is the one of an unmatched gene or the one of the first
    entry its gene matches. *)
Lemma compare_gene_cases d E gene_b :
  (Forall (λ kv, ¬ matches gene_b kv) d
   ∧ compare_gene d E gene_b
     = {| Gene := gene_b; Synonyms := ""; Present_in_A := "False" |})
  ∨ ∃ pre canon syns post,
      d = pre ++ (canon, syns) :: post
      ∧ Forall (λ kv, ¬ matches gene_b kv) pre
      ∧ matches gene_b (canon, syns)
      ∧ Present_in_A (compare_gene d E gene_b)
        = Py.str_of_bool (bool_decide (canon ∈ E) || any_in E syns).
Proof.
  destruct (decide (Exists (matches gene_b) d)) as [Hex|Hno].
  - right.
    destruct (first_match_split _ _ Hex)
      as (pre & [canon syns] & post & -> & Hpre & Hm).
    exists pre, canon, syns, post. split_and!; try done.
    by rewrite (compare_gene_matched _ gene_b pre canon syns post Hpre Hm).
  - left. apply not_Exists_Forall in Hno; [|apply _].
    split; [done|]. by apply compare_gene_unmatched.
Qed.
End Present.

(** X11: Present_in_A is "True" only for a gene that matches an index
    entry, and then only when the key or a synonym of the first such entry
    is in the expanded set A; a gene the index does not know is never
    reported present. *)
Theorem compare_files_true_inv
    (d : dict (gset string)) (A B : gset string) (r : ResultRecord) :
  r ∈ compare_files d A B →
  Present_in_A r = "True" →
  ∃ pre canon syns post,
    d = pre ++ (canon, syns) :: post
    ∧ Forall (λ kv, ¬ matches (Gene r) kv) pre
    ∧ matches (Gene r) (canon, syns)
    ∧ (canon ∈ expand_gene_set_with_synonyms A d
       ∨ ∃ s, s ∈ syns ∧ s ∈ expand_gene_set_with_synonyms A d).
Proof.
  intros [_ Hr]%elem_of_compare_files Htrue.
  remember (Gene r) as gene_b eqn:Hg. clear Hg. subst r.
  destruct (compare_gene_cases d (expand_gene_set_with_synonyms A d) gene_b)
    as [[_ Heq]|(pre & canon & syns & post & Hd & Hpre & Hm & Hp)].
  - by rewrite Heq in Htrue.
  - exists pre, canon, syns, post. split_and!; try done.
    rewrite Hp in Htrue. by apply present_spec, str_of_bool_True.
Qed.

Lemma compare_files_true_inv_witness :
  let d : dict (gset string) := [("foo", {["bar"; "baz"]})] in
  let r := {| Gene := "bar"; Synonyms := "baz|foo"; Present_in_A := "True" |} in
  ∃ pre canon syns post,
    d = pre ++ (canon, syns) :: post
    ∧ Forall (λ kv, ¬ matches (Gene r) kv) pre
    ∧ matches (Gene r) (canon, syns)
    ∧ (canon ∈ expand_gene_set_with_synonyms {["foo"]} d
       ∨ ∃ s, s ∈ syns ∧ s ∈ expand_gene_set_with_synonyms {["foo"]} d).
Proof.
  intros d r. apply (compare_files_true_inv d {["foo"]} {["bar"]} r).
  - vm_compute. apply list_elem_of_here.
  - reflexivity.
Defined.

(** X12: when file A itself lists the key or a synonym of the first entry
    that a gene of file B matches, the gene is reported present. *)
Theorem compare_files_class_member_in_A
    (A B : gset string) (r : ResultRecord)
    (pre post : dict (gset string)) (canon : string) (syns : gset string)
    (x : string) :
  r ∈ compare_files (pre ++ (canon, syns) :: post) A B →
  Forall (λ kv, ¬ matches (Gene r) kv) pre →
  matches (Gene r) (canon, syns) →
  x = canon ∨ x ∈ syns →
  x ∈ A →
  Present_in_A r = "True".
Proof.
  intros [_ Hr]%elem_of_compare_files Hpre Hm Hx HA.
  remember (Gene r) as gene_b eqn:Hg. clear Hg.
  rewrite (compare_gene_matched _ gene_b pre canon syns post Hpre Hm) in Hr.
  subst r. simpl. apply str_of_bool_True, present_spec.
  pose proof (expand_subseteq A (pre ++ (canon, syns) :: post) x HA) as HE.
  destruct Hx as [->|Hx]; [by left|]. right. by exists x.
Qed.

Lemma compare_files_class_member_in_A_witness :
  Present_in_A
    {| Gene := "tp53"; Synonyms := "p53|trp53"; Present_in_A := "True" |}
  = "True".
Proof.
  apply (compare_files_class_member_in_A {["trp53"]} {["tp53"]} _ [] []
           "tp53" {["p53"; "trp53"]} "trp53").
  - vm_compute. apply list_elem_of_here.
  - constructor.
  - apply (bool_decide_unpack _). vm_compute. exact I.
  - apply (bool_decide_unpack _). vm_compute. exact I.
  - apply (bool_decide_unpack _). vm_compute. exact I.
Defined.

(** X13: adding genes to file A leaves the Gene and Synonyms columns as
    they are and never turns a "True" into a "False". *)
Theorem compare_files_mono
    (d : dict (gset string)) (A A' B : gset string) (r r' : ResultRecord) :
  A ⊆ A' →
  r ∈ compare_files d A B →
  r' ∈ compare_files d A' B →
  Gene r = Gene r' →
  Synonyms r = Synonyms r'
  ∧ (Present_in_A r = "True" → Present_in_A r' = "True").
Proof.
  intros Hsub [_ Hr]%elem_of_compare_files [_ Hr']%elem_of_compare_files Hg.
  rewrite <-Hg in Hr'. remember (Gene r) as gene_b eqn:Hb. clear Hb Hg.
  subst r r'.
  pose proof (expand_mono A A' d Hsub) as HE.
  set (E := expand_gene_set_with_synonyms A d) in *.
  set (E' := expand_gene_set_with_synonyms A' d) in *.
  destruct (decide (Exists (matches gene_b) d)) as [Hex|Hno].
  - destruct (first_match_split _ _ Hex)
      as (pre & [canon syns] & post & -> & Hpre & Hm).
    rewrite !(compare_gene_matched _ gene_b pre canon syns post Hpre Hm).
    simpl. split; [done|]. rewrite !str_of_bool_True, !present_spec.
    intros [?|(s & ? & ?)]; [left; by apply HE|].
    right. exists s. split; [done|]. by apply HE.
  - apply not_Exists_Forall in Hno; [|apply _].
    by rewrite !(compare_gene_unmatched _ _ _ Hno).
Qed.

Lemma compare_files_mono_witness :
  let r := {| Gene := "tp53"; Synonyms := "p53|trp53"; Present_in_A := "True" |} in
  Synonyms r = Synonyms r
  ∧ (Present_in_A r = "True" → Present_in_A r = "True").
Proof.
  intros r.
  apply (compare_files_mono [("tp53", {["p53"; "trp53"]})]
           {["p53"]} {["p53"; "abc"]} {["tp53"]} r r).
  - apply (bool_decide_unpack _). vm_compute. exact I.
  - vm_compute. apply list_elem_of_here.
  - vm_compute. apply list_elem_of_here.
  - reflexivity.
Defined.

(** ** The comparator over the store *)

Section StoreCompare.
Implicit Types (σ σp : gmap Store.loc Store.obj) (d : dict Store.loc)
  (l : Store.loc) (E : gset string).

Lemma fresh_loc_None σ : σ !! fresh (dom σ) = None.
Proof. apply (not_elem_of_dom (D := gset Store.loc)), is_fresh. Qed.

Lemma subseteq_alloc σp σ (o : Store.obj) :
  σp ⊆ σ → σp ⊆ <[fresh (dom σ) := o]> σ.
Proof.
  intros Hsub. apply insert_subseteq_r; [|done].
  apply (lookup_weaken_None _ σ); [apply fresh_loc_None|done].
Qed.

Lemma dict_wf_weaken σp σ d : σp ⊆ σ → Store.dict_wf σp d → Store.dict_wf σ d.
Proof.
  intros Hsub Hwf. unfold Store.dict_wf in *.
  eapply Forall_impl; [exact Hwf|].
  intros kv [s Hs]. exists s. by apply (lookup_weaken σp).
Qed.

Lemma index_of_weaken σp σ d :
  σp ⊆ σ → Store.dict_wf σp d → Store.index_of σ d = Store.index_of σp d.
Proof.
  intros Hsub Hwf. unfold Store.index_of.
  induction Hwf as [|[k l] d [s Hs] _ IH]; [done|].
  rewrite !fmap_cons, IH. do 2 f_equal. simpl in *. unfold Store.set_at.
  by rewrite Hs, (lookup_weaken σp σ l _ Hs Hsub).
Qed.

(** The whole run of the expansion. *)
Lemma store_expand_run σ gene_set gene_dict (S : gset string) d :
  σ !! gene_set = Some (Store.OSet S) →
  σ !! gene_dict = Some (Store.ODict d) →
  Store.dict_wf σ d →
  Store.expand_gene_set_with_synonyms gene_set gene_dict σ
  = Some (fresh (dom σ),
          <[fresh (dom σ) :=
              Store.OSet (expand_gene_set_with_synonyms S (Store.index_of σ d))]> σ).
Proof.
  intros HS Hd Hwf.
  unfold Store.expand_gene_set_with_synonyms, Store.new_set. rewrite HS.
  by rewrite (expand_loop_fresh σ gene_dict d _ _ ∅ (fresh_loc_None σ) Hd Hwf).
Qed.

(** The inner loop allocates at most one set and touches nothing that the
    protected part [σp] of the store holds. *)
Lemma store_match_loop σp σ gene_b expanded_file_a E
    (items : dict Store.loc) l0 (s0 : gset string) (b0 : bool) :
  σp ⊆ σ → Store.dict_wf σp items →
  σp !! expanded_file_a = Some (Store.OSet E) →
  σ !! l0 = Some (Store.OSet s0) → σp !! l0 = None →
  ∃ l σ',
    StoreCmp.match_loop gene_b expanded_file_a items (l0, b0) σ
    = Some (l, (match_loop gene_b E (Store.index_of σp items) (s0, b0)).2, σ')
    ∧ σp ⊆ σ'
    ∧ σ' !! l
      = Some (Store.OSet
                (match_loop gene_b E (Store.index_of σp items) (s0, b0)).1)
    ∧ σp !! l = None.
Proof.
  intros Hsub Hwf HE Hl0 Hl0p.
  induction Hwf as [|[k sl] items [syns Hs] _ IH].
  - exists l0, σ. by split_and!.
  - simpl in Hs. cbn [StoreCmp.match_loop].
    rewrite (lookup_weaken σp σ sl _ Hs Hsub).
    unfold Store.index_of. rewrite fmap_cons. cbn [match_loop fst snd].
    replace (Store.set_at σp sl) with syns
      by (unfold Store.set_at; by rewrite Hs).
    destruct (bool_decide (gene_b = k) || bool_decide (gene_b ∈ syns)).
    + unfold StoreCmp.alloc_set.
      pose proof (lookup_weaken σp σ _ _ HE Hsub) as HEσ.
      assert (expanded_file_a ≠ fresh (dom σ)) as Hne
        by (intros ->; by rewrite fresh_loc_None in HEσ).
      rewrite lookup_insert_ne, HEσ by done.
      eexists _, _. split_and!; [done| | |].
      * by apply subseteq_alloc.
      * apply lookup_insert_eq.
      * apply (lookup_weaken_None _ σ); [apply fresh_loc_None|done].
    + apply IH.
Qed.

Lemma store_compare_gene σp σ gene_dict expanded_file_a d E gene_b :
  σp ⊆ σ → σp !! gene_dict = Some (Store.ODict d) → Store.dict_wf σp d →
  σp !! expanded_file_a = Some (Store.OSet E) →
  ∃ σ',
    StoreCmp.compare_gene gene_dict expanded_file_a gene_b σ
    = Some (compare_gene (Store.index_of σp d) E gene_b, σ')
    ∧ σp ⊆ σ'.
Proof.
  intros Hsub Hd Hwf HE.
  unfold StoreCmp.compare_gene, StoreCmp.alloc_set.
  set (l0 := fresh (dom σ)). set (σ1 := <[l0 := Store.OSet ∅]> σ).
  assert (Hsub1 : σp ⊆ σ1) by by apply subseteq_alloc.
  rewrite (lookup_weaken σp σ1 _ _ Hd Hsub1).
  destruct (store_match_loop σp σ1 gene_b expanded_file_a E d l0 ∅ false)
    as (l & σ2 & Hrun & Hsub2 & Hl & Hlp); try done.
  { apply lookup_insert_eq. }
  { apply (lookup_weaken_None _ σ); [apply fresh_loc_None|done]. }
  rewrite Hrun. unfold compare_gene.
  destruct (match_loop gene_b E (Store.index_of σp d) (∅, false))
    as [s b]. simpl in *.
  unfold StoreCmp.set_discard. rewrite Hl. simpl. rewrite lookup_insert_eq.
  eexists. split; [done|]. by apply insert_subseteq_r.
Qed.

Lemma store_compare_loop σp σ gene_dict expanded_file_a d E
    (genes : list string) (output : list ResultRecord) :
  σp ⊆ σ → σp !! gene_dict = Some (Store.ODict d) → Store.dict_wf σp d →
  σp !! expanded_file_a = Some (Store.OSet E) →
  ∃ σ',
    foldl (StoreCmp.compare_step gene_dict expanded_file_a)
          (Some (output, σ)) genes
    = Some (output ++ (compare_gene (Store.index_of σp d) E <$> genes), σ')
    ∧ σp ⊆ σ'.
Proof.
  intros Hsub Hd Hwf HE. revert output σ Hsub.
  induction genes as [|gene_b genes IH]; intros output σ Hsub; cbn [foldl].
  - exists σ. by rewrite fmap_nil, app_nil_r.
  - destruct (store_compare_gene σp σ gene_dict expanded_file_a d E gene_b)
      as (σ1 & Hrun & Hsub1); try done.
    unfold StoreCmp.compare_step at 2. simpl. rewrite Hrun. simpl.
    destruct (IH (output ++ [compare_gene (Store.index_of σp d) E gene_b]) σ1 Hsub1)
      as (σ' & Hloop & Hsub').
    exists σ'. split; [|done].
    rewrite Hloop, <-app_assoc. done.
Qed.
End StoreCompare.

(** X16: run on a store where gene_dict is a dictionary of set objects and
    the two gene lists are set objects, [compare_files] returns the records
    of the comparison and leaves every object that existed before as it
    was: the index, its synonym sets and both gene sets; what it discards
    from is a set of its own. *)
Theorem compare_files_leaves_inputs
    (σ : gmap Store.loc Store.obj)
    (gene_dict file_a_genes file_b_genes : Store.loc)
    (d : dict Store.loc) (A B : gset string) :
  σ !! gene_dict = Some (Store.ODict d) →
  Store.dict_wf σ d →
  σ !! file_a_genes = Some (Store.OSet A) →
  σ !! file_b_genes = Some (Store.OSet B) →
  ∃ σ',
    StoreCmp.compare_files gene_dict file_a_genes file_b_genes σ
    = Some (compare_files (Store.index_of σ d) A B, σ')
    ∧ σ ⊆ σ'.
Proof.
  intros Hd Hwf HA HB. unfold StoreCmp.compare_files.
  rewrite (store_expand_run σ file_a_genes gene_dict A d HA Hd Hwf). simpl.
  set (E := expand_gene_set_with_synonyms A (Store.index_of σ d)).
  set (σp := <[fresh (dom σ) := Store.OSet E]> σ).
  assert (Hsub : σ ⊆ σp) by by apply subseteq_alloc.
  rewrite (lookup_weaken σ σp _ _ HB Hsub).
  destruct (store_compare_loop σp σp gene_dict (fresh (dom σ)) d E
              (elements B) [])
    as (σ' & Hloop & Hsub'); try done.
  { by apply (lookup_weaken σ). }
  { by apply (dict_wf_weaken σ). }
  { apply lookup_insert_eq. }
  exists σ'. split; [|by transitivity σp].
  rewrite Hloop, compare_files_fmap, (index_of_weaken σ σp) by done.
  done.
Qed.

Lemma compare_files_leaves_inputs_witness :
  let d : dict Store.loc := [("tp53", 4%positive)] in
  let σ : gmap Store.loc Store.obj :=
    list_to_map [(1%positive, Store.ODict d);
                 (2%positive, Store.OSet {["p53"]});
                 (3%positive, Store.OSet {["tp53"; "abc"]});
                 (4%positive, Store.OSet {["p53"; "trp53"]})] in
  ∃ σ',
    StoreCmp.compare_files 1%positive 2%positive 3%positive σ
    = Some (compare_files (Store.index_of σ d) {["p53"]} {["tp53"; "abc"]}, σ')
    ∧ σ ⊆ σ'.
Proof.
  intros d σ.
  apply (compare_files_leaves_inputs σ 1%positive 2%positive 3%positive d).
  - vm_compute. reflexivity.
  - apply Forall_cons_2; [|apply Forall_nil_2].
    exists {["p53"; "trp53"]}. vm_compute. reflexivity.
  - vm_compute. reflexivity.
  - vm_compute. reflexivity.
Defined.

(** ** The whole run *)


(** X15: a run that writes its output writes one record for each distinct
    non-blank line of file B, taken in lowercase and without surrounding
    whitespace, and no other record. *)
Theorem main_output_genes
    (gene_info : csv_file) (file_a : text_file) (lines_b : list string)
    (writable : bool) (written : list ResultRecord) :
  (main gene_info file_a (Some lines_b) writable).2 = Some written →
  NoDup (Gene <$> written)
  ∧ ∀ g, g ∈ Gene <$> written ↔
         g ≠ "" ∧ ∃ line, line ∈ lines_b ∧ g = Py.lower (Py.strip line).
Proof.
  unfold main, write_output.
  destruct (load_gene_info gene_info) as [d|?]; [|done].
  destruct (read_gene_file file_a) as [A|?]; [|done].
  destruct (read_gene_file (Some lines_b)) as [B|?] eqn:HB; [|done].
  destruct writable; [|done]. intros [= <-].
  rewrite compare_files_Gene. split; [apply NoDup_elements|].
  intros g. rewrite elem_of_elements.
  destruct (elem_of_read_gene_file lines_b g) as (B' & HB' & Hiff).
  rewrite HB in HB'. by injection HB' as <-.
Qed.

Lemma main_output_genes_witness :
  let written :=
    [{| Gene := "tp53"; Synonyms := "p53"; Present_in_A := "True" |}] in
  NoDup (Gene <$> written)
  ∧ ∀ g, g ∈ Gene <$> written ↔
         g ≠ "" ∧ ∃ line, line ∈ [" TP53"; ""; "tp53 "]
                          ∧ g = Py.lower (Py.strip line).
Proof.
  intros written.
  apply (main_output_genes
           (Some [["Symbol"; "Synonyms"]; ["TP53"; "p53"]])
           (Some ["p53"]) [" TP53"; ""; "tp53 "] true written).
  vm_compute. reflexivity.
Defined.
